(** * A shallow embedding of [app/main.py]: the DESCRIBE TABLE ... LINES scanner

    The service scans ABAP code units for the obsolete statement
    [DESCRIBE TABLE <table> LINES <target>] and reports one finding per
    occurrence.  This file embeds

    - the text helpers [line_of_offset] and [snippet_at],
    - the compiled pattern [DESCRIBE_TABLE_RE] together with the part of
      Python's backtracking [re] engine that it exercises,
    - the object-level code of [scan_unit] and [scan_describe_table] in a
      small store-and-exception monad,

    and proves the properties that the specification states about them. *)

From Stdlib Require Import ZArith NArith Ascii String Lia Sorted.
From stdpp Require Import list strings.

Open Scope Z_scope.
Set Warnings "-register-all".

(** ** Python strings

    A Python [str] is a sequence of Unicode code points.  A code point is a
    natural number ([N]); a text is a list of them.  Dictionary keys and the
    literals of the source are written as Rocq strings and turned into
    code points by [lit] (all of them are ASCII, except the ellipsis in the
    note, which is spelled out as U+2026). *)

Abbreviation char := N (only parsing).
Abbreviation str := (list N) (only parsing).

Definition lit (s : string) : str := map N_of_ascii (list_ascii_of_string s).

Definition LF : char := 10%N.          (* "\n" *)
Definition BACKSLASH : char := 92%N.
Definition ELLIPSIS : char := 8230%N.  (* U+2026 *)

(** Slice indices as Python normalises them: a negative index counts from
    the end, and every index is clamped to [0, len]. *)
Definition slice_index (n i : Z) : Z :=
  if i <? 0 then Z.max 0 (i + n) else Z.min i n.

(** [l[lo:hi]] *)
Definition py_slice {A} (l : list A) (lo hi : Z) : list A :=
  let n := Z.of_nat (length l) in
  let lo' := slice_index n lo in
  let hi' := slice_index n hi in
  take (Z.to_nat (hi' - lo')) (drop (Z.to_nat lo') l).

(** [text.count(c, lo, hi)] for a needle [c] of length one. *)
Fixpoint count_char (c : char) (s : str) : Z :=
  match s with
  | [] => 0
  | x :: s' => (if N.eqb x c then 1 else 0) + count_char c s'
  end.

Definition str_count (c : char) (text : str) (lo hi : Z) : Z :=
  count_char c (py_slice text lo hi).

(** [text.replace(c, rep)] for a needle [c] of length one. *)
Fixpoint str_replace (c : char) (rep : str) (s : str) : str :=
  match s with
  | [] => []
  | x :: s' => (if N.eqb x c then rep else [x]) ++ str_replace c rep s'
  end.

(** ** Utility functions of the source *)

Definition line_of_offset (text : str) (off : Z) : Z :=
  str_count LF text 0 off + 1.

Definition snippet_at (text : str) (start end_ : Z) : str :=
  let s := Z.max 0 (start - 60) in
  let e := Z.min (Z.of_nat (length text)) (end_ + 60) in
  str_replace LF [BACKSLASH; 110%N] (py_slice text s e).

Definition make_generic_suggestion (table target : str) : str :=
  lit "Replace obsolete 'DESCRIBE TABLE " ++ table ++ lit " LINES " ++ target ++ lit "' "
  ++ lit "with modern expression 'DATA(" ++ target ++ lit ") = LINES( " ++ table ++ lit " ).' "
  ++ lit "This uses the S/4HANA-compatible LINES() function.".


(** [s.strip()]: Unicode white space removed at both ends, see [is_space]. *)
Fixpoint lstrip (ws : char -> bool) (s : str) : str :=
  match s with
  | x :: s' => if ws x then lstrip ws s' else s
  | [] => []
  end.

Definition str_strip (ws : char -> bool) (s : str) : str :=
  reverse (lstrip ws (reverse (lstrip ws s))).

(** ** Character classes of [re] on [str] patterns *)

Definition in_range (lo hi c : char) : bool := ((lo <=? c) && (c <=? hi))%N.

(** [\s]: the characters for which [str.isspace()] holds. *)
Definition is_space (c : char) : bool :=
  in_range 0x09 0x0D c || in_range 0x1C 0x20 c
  || (c =? 0x85)%N || (c =? 0xA0)%N || (c =? 0x1680)%N
  || in_range 0x2000 0x200A c || (c =? 0x2028)%N || (c =? 0x2029)%N
  || (c =? 0x202F)%N || (c =? 0x205F)%N || (c =? 0x3000)%N.

(** The ASCII part of [\w]: letters, digits and the underscore. *)
Definition is_ascii_word (c : char) : bool :=
  in_range 0x30 0x39 c || in_range 0x41 0x5A c || (c =? 0x5F)%N || in_range 0x61 0x7A c.

Definition ascii_lower (c : char) : char :=
  if in_range 0x41 0x5A c then (c + 32)%N else c.

(** How a literal [p] of the pattern compares with a character [x] of the
    text under [re.IGNORECASE] (for [p] in ASCII, as all literals of
    [DESCRIBE_TABLE_RE] are): the two agree up to ASCII case, or [x] is one
    of the letters whose lower case is [p]: U+0130 and U+0131 for [i],
    U+017F for [s], U+212A for [k]. *)
Definition ignorecase_eq (p x : char) : bool :=
  let p' := ascii_lower p in
  (ascii_lower x =? p')%N
  || (p' =? 0x69)%N && ((x =? 0x130)%N || (x =? 0x131)%N)
  || (p' =? 0x73)%N && (x =? 0x17F)%N
  || (p' =? 0x6B)%N && (x =? 0x212A)%N.

(** ** The fragment of [re] that the pattern uses

    After [re.VERBOSE] has removed the white space and the comments,
    [DESCRIBE_TABLE_RE] is a sequence of literal runs, greedy [cls+]
    repetitions of a character class, and two named groups. *)

Inductive regex :=
| Lits (l : str)                    (* a run of literals *)
| Plus (cls : char -> bool)         (* [cls+], greedy *)
| Cat (r1 r2 : regex)               (* [r1 r2] *)
| Group (name : string) (r : regex) (* [(?P<name>r)] *).

(** The span [(start, end)] of every group that has matched, most recent first. *)
Abbreviation captures := (list (string * (nat * nat))) (only parsing).

(** What is left to match: the rest of the text, the position reached, the
    groups so far. *)
Abbreviation cont := (list N -> nat -> list (string * (nat * nat)) ->
                      option (nat * list (string * (nat * nat)))) (only parsing).

Fixpoint exec_lits (l : str) (s : str) (pos : nat) : option (str * nat) :=
  match l, s with
  | [], _ => Some (s, pos)
  | p :: l', x :: s' => if ignorecase_eq p x then exec_lits l' s' (S pos) else None
  | _ :: _, [] => None
  end.

(** Greedy repetition with backtracking: the longest run is tried first,
    and each shorter one only if the continuation fails on the longer. *)
Fixpoint exec_plus (cls : char -> bool) (s : str) (pos : nat)
    (caps : captures) (k : cont) : option (nat * captures) :=
  match s with
  | x :: s' =>
      if cls x then
        match exec_plus cls s' (S pos) caps k with
        | Some r => Some r
        | None => k s' (S pos) caps
        end
      else None
  | [] => None
  end.

Fixpoint exec (r : regex) (s : str) (pos : nat) (caps : captures) (k : cont)
    : option (nat * captures) :=
  match r with
  | Lits l =>
      match exec_lits l s pos with
      | Some (s', pos') => k s' pos' caps
      | None => None
      end
  | Plus cls => exec_plus cls s pos caps k
  | Cat r1 r2 => exec r1 s pos caps (fun s' pos' caps' => exec r2 s' pos' caps' k)
  | Group g r1 =>
      exec r1 s pos caps (fun s' pos' caps' => k s' pos' ((g, (pos, pos')) :: caps'))
  end.

(** A match of [r] that starts exactly at [pos], where [s] is the text from
    [pos] on: the end of the match and the groups. *)
Definition match_at (r : regex) (s : str) (pos : nat) : option (nat * captures) :=
  exec r s pos [] (fun _ e caps => Some (e, caps)).

(** A match object. *)
Record Match := {
  m_string : str;      (* m.string *)
  m_start : nat;       (* m.start() *)
  m_end : nat;         (* m.end() *)
  m_groups : captures
}.

Definition substring (text : str) (a b : nat) : str := take (b - a) (drop a text).

(** [m.group(0)] *)
Definition group0 (m : Match) : str := substring (m_string m) (m_start m) (m_end m).

Fixpoint assoc {A} (k : string) (l : list (string * A)) : option A :=
  match l with
  | [] => None
  | (k', v) :: l' => if String.eqb k k' then Some v else assoc k l'
  end.

(** [m.group(name)]; [None] stands for the [IndexError] of an unknown name. *)
Definition group (m : Match) (name : string) : option str :=
  match assoc name (m_groups m) with
  | Some (a, b) => Some (substring (m_string m) a b)
  | None => None
  end.

(** [r.finditer(text)]: the text is scanned from left to right; [s] is the
    text from [pos] on and [skip] the number of characters that the last
    match still covers.  At a position that no match covers the pattern is
    tried; a match is yielded and the search resumes at its end.  (The
    pattern of this program matches no empty string; on an empty match the
    search moves on by one character.) *)
Fixpoint finditer_from (r : regex) (text s : str) (pos skip : nat) : list Match :=
  match skip with
  | S skip' =>
      match s with
      | [] => []
      | _ :: s' => finditer_from r text s' (S pos) skip'
      end
  | O =>
      match match_at r s pos with
      | Some (e, caps) =>
          {| m_string := text; m_start := pos; m_end := e; m_groups := caps |} ::
          match s with
          | [] => []
          | _ :: s' => finditer_from r text s' (S pos) (e - pos - 1)
          end
      | None =>
          match s with
          | [] => []
          | _ :: s' => finditer_from r text s' (S pos) 0
          end
      end
  end.

Definition finditer (r : regex) (text : str) : list Match :=
  finditer_from r text text 0 0.

(** Where a match lies and where its groups lie. *)
Definition span_of (m : Match) : nat * nat * list (string * (nat * nat)) :=
  (m_start m, m_end m, m_groups m).

(** The character classes of [r] do not tell [x] from [f x]. *)
Fixpoint class_blind (f : char -> char) (r : regex) : Prop :=
  match r with
  | Lits _ => True
  | Plus cls => forall x, cls (f x) = cls x
  | Cat r1 r2 => class_blind f r1 /\ class_blind f r2
  | Group _ r1 => class_blind f r1
  end.

(** ** Python values and the models of the source *)

Inductive value :=
| VNone
| VBool (b : bool)
| VInt (z : Z)
| VFloat (bits : N)   (* carried through untouched, as its IEEE-754 bits *)
| VStr (s : str)
| VList (l : list value)
| VDict (d : list (string * value)). (* in insertion order *)

Abbreviation dict := (list (string * value)) (only parsing).

(** [d[k] = v]: an existing key keeps its place, a new one goes last. *)
Fixpoint dict_set (k : string) (v : value) (d : dict) : dict :=
  match d with
  | [] => [(k, v)]
  | (k', v') :: d' =>
      if String.eqb k k' then (k, v) :: d' else (k', v') :: dict_set k v d'
  end.

(** Truth value of an object, as [if] tests it. *)
Definition truthy (v : value) : bool :=
  match v with
  | VNone => false
  | VBool b => b
  | VInt z => negb (z =? 0)
  | VFloat bits => negb ((bits =? 0)%N || (bits =? 2 ^ 63)%N)
  | VStr s => negb (bool_decide (s = []))
  | VList l => negb (bool_decide (length l = 0%nat))
  | VDict d => negb (bool_decide (length d = 0%nat))
  end.

(** [x or d] for an optional string [x]. *)
Definition str_or (x : option str) (d : str) : str :=
  match x with
  | Some (c :: s) => c :: s
  | Some [] | None => d
  end.

Module Finding.
(** [class Finding(BaseModel)]: every field is optional. *)
Record t := {
  pgm_name : option str;
  inc_name : option str;
  type : option str;
  name : option str;
  start_line : option Z;
  end_line : option Z;
  issue_type : option str;
  severity : option str;
  line : option Z;
  message : option str;
  suggestion : option str;
  snippet : option str;
  meta : option dict
}.
End Finding.

(** [class Unit(BaseModel)] *)
Record Unit := {
  pgm_name : str;
  inc_name : str;
  type : str;
  name : option str;
  start_line : option Z;
  end_line : option Z;
  code : option str;
  describe_findings : option (list Finding.t)
}.

Definition of_str (x : option str) : value :=
  match x with Some s => VStr s | None => VNone end.

Definition of_int (x : option Z) : value :=
  match x with Some z => VInt z | None => VNone end.

Definition dump_finding (f : Finding.t) : value :=
  VDict [("pgm_name", of_str (Finding.pgm_name f));
         ("inc_name", of_str (Finding.inc_name f));
         ("type", of_str (Finding.type f));
         ("name", of_str (Finding.name f));
         ("start_line", of_int (Finding.start_line f));
         ("end_line", of_int (Finding.end_line f));
         ("issue_type", of_str (Finding.issue_type f));
         ("severity", of_str (Finding.severity f));
         ("line", of_int (Finding.line f));
         ("message", of_str (Finding.message f));
         ("suggestion", of_str (Finding.suggestion f));
         ("snippet", of_str (Finding.snippet f));
         ("meta", match Finding.meta f with Some d => VDict d | None => VNone end)].

(** [unit.model_dump()]: a new dictionary with one entry per field, in the
    order of the class. *)
Definition model_dump (u : Unit) : dict :=
  [("pgm_name", VStr (pgm_name u));
   ("inc_name", VStr (inc_name u));
   ("type", VStr (type u));
   ("name", of_str (name u));
   ("start_line", of_int (start_line u));
   ("end_line", of_int (end_line u));
   ("code", of_str (code u));
   ("describe_findings",
     match describe_findings u with
     | Some fs => VList (map dump_finding fs)
     | None => VNone
     end)].

(** ** Objects, the store and exceptions

    The unit handed to [scan_unit], the list [findings], the dictionary
    [obj] and the list [results] are objects: cells of a store, named by
    their index.  A statement of the source is a computation that reads and
    writes cells or raises.  A list or dictionary placed inside another one
    is recorded with the contents it has at that moment; the source does not
    change it afterwards. *)

Inductive cell :=
| CUnit (u : Unit)
| CList (l : list value)
| CDict (d : list (string * value)).

Abbreviation loc := nat (only parsing).
Abbreviation store := (list cell) (only parsing).

Inductive exn :=
| AttributeError
| TypeError
| IndexError
| KeyError (k : string).

Inductive outcome (A : Type) :=
| Ok (a : A) (h : store)
| Raise (e : exn).
Arguments Ok {A} a h.
Arguments Raise {A} e.

Definition M (A : Type) : Type := list cell -> outcome A.

#[global] Instance M_ret : MRet M := fun A a h => Ok a h.
#[global] Instance M_bind : MBind M := fun A B f m h =>
  match m h with
  | Ok a h' => f a h'
  | Raise e => Raise e
  end.

Definition raise {A} (e : exn) : M A := fun _ => Raise e.

Definition alloc (c : cell) : M loc := fun h => Ok (length h) (h ++ [c]).

(** Reading the attributes of a unit. *)
Definition load_unit (l : loc) : M Unit := fun h =>
  match h !! l with
  | Some (CUnit u) => Ok u h
  | _ => Raise AttributeError
  end.

Definition load_list (l : loc) : M (list value) := fun h =>
  match h !! l with
  | Some (CList vs) => Ok vs h
  | _ => Raise TypeError
  end.

Definition load_dict (l : loc) : M dict := fun h =>
  match h !! l with
  | Some (CDict d) => Ok d h
  | _ => Raise TypeError
  end.

(** [l.append(v)] *)
Definition list_append (l : loc) (v : value) : M unit := fun h =>
  match h !! l with
  | Some (CList vs) => Ok tt (<[l := CList (vs ++ [v])]> h)
  | _ => Raise AttributeError
  end.

(** [d[k] = v] *)
Definition dict_setitem (l : loc) (k : string) (v : value) : M unit := fun h =>
  match h !! l with
  | Some (CDict d) => Ok tt (<[l := CDict (dict_set k v d)]> h)
  | _ => Raise TypeError
  end.

(** [d[k]] *)
Definition dict_getitem (l : loc) (k : string) : M value := fun h =>
  match h !! l with
  | Some (CDict d) =>
      match assoc k d with
      | Some v => Ok v h
      | None => Raise (KeyError k)
      end
  | _ => Raise TypeError
  end.

(** [unit.model_dump()] allocates the dictionary it returns. *)
Definition unit_model_dump (l : loc) : M loc :=
  u ← load_unit l; alloc (CDict (model_dump u)).

Definition match_group (m : Match) (name : string) : M str :=
  match group m name with
  | Some s => mret s
  | None => raise IndexError
  end.

(** [for x in xs: body(x)] *)
Fixpoint for_each {A} (xs : list A) (body : A -> M unit) : M unit :=
  match xs with
  | [] => mret tt
  | x :: xs' => body x;; for_each xs' body
  end.

(** Building a [Unit] from a request: the constructor of the model fills
    in the defaults of the class for the fields that the caller leaves out.
    For an optional field, [None] is a field left out and [Some None] an
    explicit null. *)
Definition Unit_init (pgm_name inc_name type : str)
    (name : option (option str)) (start_line end_line : option (option Z))
    (code : option (option str))
    (describe_findings : option (option (list Finding.t))) : Unit :=
  {| pgm_name := pgm_name;
     inc_name := inc_name;
     type := type;
     name := default (Some []) name;
     start_line := default (Some 0) start_line;
     end_line := default (Some 0) end_line;
     code := default (Some []) code;
     describe_findings := default None describe_findings |}.

(** ** The helpers as the specification words them *)

(** The number of line feeds strictly before offset [n]. *)
Definition newlines_before (text : str) (n : nat) : Z :=
  Z.of_nat (length (List.filter (fun k => bool_decide (text !! k = Some LF)) (seq 0 n))).

(** The text from 60 characters before [start] to 60 characters after
    [end_], cut at the bounds of the text. *)
Definition context_window (text : str) (start end_ : nat) : str :=
  substring text (start - 60) (Nat.min (length text) (end_ + 60)).

(** The characters that break a line, as [str.splitlines] knows them: line
    feed, carriage return, vertical tab, form feed, the file, group and
    record separators, next line, and the line and paragraph separators. *)
Definition CR : char := 13%N.          (* "\r" *)

Definition is_line_break (c : char) : bool :=
  in_range 0x0A 0x0D c || in_range 0x1C 0x1E c
  || (c =? 0x85)%N || (c =? 0x2028)%N || (c =? 0x2029)%N.

(** Every line feed written as the two characters backslash and [n]. *)
Definition escape_line_breaks (s : str) : str :=
  flat_map (fun c => if bool_decide (c = LF) then [BACKSLASH; 110%N] else [c]) s.

(** A unit to run the scanner on. *)
Definition sample_unit (text : string) : Unit :=
  {| pgm_name := lit "ZSALES";
     inc_name := lit "ZSALES_F01";
     type := lit "FORM";
     name := Some (lit "COUNT_ROWS");
     start_line := Some 10;
     end_line := Some 42;
     code := Some (lit text);
     describe_findings := None |}.

Definition NL : string := String (ascii_of_nat 10) EmptyString.

(** A store with the three units of scenario C, and one with a unit whose
    [code] is null. *)
Definition sample_store : store :=
  [CUnit (sample_unit "DESCRIBE TABLE LT_TAB LINES LV_LINES.");
   CUnit (sample_unit "WRITE 'hello'.");
   CUnit (sample_unit "describe table itab lines n.")].

Definition null_code_unit : Unit :=
  {| pgm_name := lit "ZSALES";
     inc_name := lit "ZSALES_TOP";
     type := lit "REPORT";
     name := Some [];
     start_line := Some 0;
     end_line := Some 0;
     code := None;
     describe_findings := None |}.

(** A unit that comes back with a finding of an earlier scan. *)
Definition rescanned_unit : Unit :=
  {| pgm_name := lit "ZSALES";
     inc_name := lit "ZSALES_F01";
     type := lit "FORM";
     name := Some (lit "COUNT_ROWS");
     start_line := Some 10;
     end_line := Some 42;
     code := Some (lit "DESCRIBE TABLE LT_TAB LINES LV_LINES.");
     describe_findings :=
       Some [{| Finding.pgm_name := Some (lit "ZSALES");
                Finding.inc_name := None;
                Finding.type := None;
                Finding.name := None;
                Finding.start_line := None;
                Finding.end_line := None;
                Finding.issue_type := Some (lit "ObsoleteDescribeTableUsage");
                Finding.severity := Some (lit "warning");
                Finding.line := Some 1;
                Finding.message := None;
                Finding.suggestion := None;
                Finding.snippet := None;
                Finding.meta := None |}] |}.

(** The alphanumeric characters of the Latin-1 block above ASCII; a table
    with which the development below can be run. *)
Definition latin1_alnum (c : char) : bool :=
  (c =? 0xAA)%N || (c =? 0xB2)%N || (c =? 0xB3)%N || (c =? 0xB5)%N
  || (c =? 0xB9)%N || (c =? 0xBA)%N || in_range 0xBC 0xBE c
  || in_range 0xC0 0xD6 c || in_range 0xD8 0xF6 c || in_range 0xF8 0xFF c.

(** Boolean tests on code points, as propositions for [lia]. *)
Ltac bool_prop :=
  unfold in_range in *;
  repeat match goal with
  | H : _ && _ = true |- _ => apply andb_true_iff in H; destruct H
  | H : _ || _ = true |- _ => apply orb_true_iff in H; destruct H
  | H : (_ =? _)%N = true |- _ => apply N.eqb_eq in H
  | H : (_ <=? _)%N = true |- _ => apply N.leb_le in H
  | H : (_ <? _)%N = true |- _ => apply N.ltb_lt in H
  | H : (_ =? _)%N = false |- _ => apply N.eqb_neq in H
  | H : (_ <=? _)%N = false |- _ => apply N.leb_gt in H
  | H : (_ <? _)%N = false |- _ => apply N.ltb_ge in H
  end.

(** ** The scanner *)

Section Scanner.

(** [\w] is [str.isalnum()] or the underscore.  Which characters above ASCII
    are alphanumeric is decided by the Unicode database of the interpreter;
    that table is a parameter.  No alphanumeric character is white space. *)
Variable uni_alnum : char -> bool.
Hypothesis uni_alnum_not_space : forall c, is_space c = true -> uni_alnum c = false.

Definition is_word (c : char) : bool :=
  if (c <? 128)%N then is_ascii_word c else uni_alnum c.

Local Infix "⊙" := Cat (at level 60, right associativity).

(** [re.compile(r"DESCRIBE\s+TABLE\s+(?P<table>\w+)\s+LINES\s+(?P<target>\w+)",
    re.IGNORECASE | re.VERBOSE)] *)
Definition DESCRIBE_TABLE_RE : regex :=
  Lits (lit "DESCRIBE") ⊙ Plus is_space ⊙ Lits (lit "TABLE") ⊙ Plus is_space
  ⊙ Group "table" (Plus is_word) ⊙ Plus is_space
  ⊙ Lits (lit "LINES") ⊙ Plus is_space ⊙ Group "target" (Plus is_word).

Definition NOTE : str :=
  lit "Replaces DESCRIBE TABLE " ++ [ELLIPSIS] ++ lit " LINES with functional expression.".

Definition message_of (table target : str) : str :=
  lit "Obsolete 'DESCRIBE TABLE " ++ table ++ lit " LINES " ++ target ++ lit "' found. "
  ++ lit "Use LINES( " ++ table ++ lit " ) instead for S/4HANA compatibility.".

Definition replacement_of (table target : str) : str :=
  lit "DATA(" ++ target ++ lit ") = LINES( " ++ table ++ lit " ).".

(** The dictionary literal that the loop of [scan_unit] builds for a match
    [m] in [src], given the attributes [u] of the unit. *)
Definition finding_dict (u : Unit) (src : str) (m : Match) (table target : str) : dict :=
  let stmt_text := group0 m in
  [("pgm_name", VStr (pgm_name u));
   ("inc_name", VStr (inc_name u));
   ("type", VStr (type u));
   ("name", of_str (name u));
   ("start_line", of_int (start_line u));
   ("end_line", of_int (end_line u));
   ("issue_type", VStr (lit "ObsoleteDescribeTableUsage"));
   ("severity", VStr (lit "warning"));
   ("line", VInt (line_of_offset src (Z.of_nat (m_start m))));
   ("message", VStr (message_of table target));
   ("suggestion", VStr (make_generic_suggestion table target));
   ("snippet", VStr (snippet_at src (Z.of_nat (m_start m)) (Z.of_nat (m_end m))));
   ("meta", VDict
      [("original_statement", VStr (str_strip is_space stmt_text));
       ("replacement_syntax", VStr (replacement_of table target));
       ("note", VStr NOTE)])].

(** [scan_unit(unit)]: [unit] names the unit object; the result names the
    dictionary [obj]. *)
Definition scan_unit (unit : loc) : M loc :=
  u ← load_unit unit;
  let src := str_or (code u) [] in
  findings ← alloc (CList []);
  for_each (finditer DESCRIBE_TABLE_RE src) (fun m =>
    table ← match_group m "table";
    target ← match_group m "target";
    u ← load_unit unit;
    list_append findings (VDict (finding_dict u src m table target)));;
  obj ← unit_model_dump unit;
  fs ← load_list findings;
  dict_setitem obj "describe_findings" (VList fs);;
  mret obj.

(** [scan_describe_table(units)]: the body of the endpoint; the value
    returned is the list [results]. *)
Definition scan_describe_table (units : list loc) : M (list value) :=
  results ← alloc (CList []);
  for_each units (fun u =>
    res ← scan_unit u;
    fs ← dict_getitem res "describe_findings";
    if truthy fs
    then d ← load_dict res; list_append results (VDict d)
    else mret tt);;
  load_list results.

(** ** What the scanner computes, as functions of the unit

    These describe the results of the code above; the theorems relate
    them to the runs of [scan_unit] and [scan_describe_table]. *)

Definition unit_src (u : Unit) : str := str_or (code u) [].

Definition group_text (m : Match) (name : string) : str := default [] (group m name).

Definition finding_of (u : Unit) (m : Match) : value :=
  VDict (finding_dict u (unit_src u) m (group_text m "table") (group_text m "target")).

Definition findings_of (u : Unit) : list value :=
  map (finding_of u) (finditer DESCRIBE_TABLE_RE (unit_src u)).

Definition scan_result (u : Unit) : dict :=
  dict_set "describe_findings" (VList (findings_of u)) (model_dump u).

Definition has_findings (u : Unit) : bool :=
  negb (bool_decide (length (findings_of u) = 0%nat)).

(** The cells that the scans of the units [us] leave in the store. *)
Definition scan_cells (us : list Unit) : list cell :=
  flat_map (fun u => [CList (findings_of u); CDict (scan_result u)]) us.

(** What the endpoint returns for the units [us]. *)
Definition batch_result (us : list Unit) : list value :=
  map (fun u => VDict (scan_result u)) (List.filter has_findings us).

(** The store holds the units [us] at the places [ls]. *)
Definition units_at (h : store) (ls : list loc) (us : list Unit) : Prop :=
  Forall2 (fun l u => h !! l = Some (CUnit u)) ls us.

(** ** The pattern as the specification words it

    The statement [DESCRIBE TABLE <table> LINES <target>]: three keywords,
    compared without regard to case, two identifiers made of letters,
    digits and underscores, and white space (line breaks included) between
    the tokens. *)

Definition keyword (kw : string) (s : str) : Prop :=
  Forall2 (fun p x => ignorecase_eq p x = true) (lit kw) s.

Definition blank (s : str) : Prop :=
  s ≠ [] ∧ Forall (fun c => is_space c = true) s.

Definition identifier (s : str) : Prop :=
  s ≠ [] ∧ Forall (fun c => is_word c = true) s.

Definition statement (s table target : str) : Prop :=
  ∃ k1 w1 k2 w2 w3 k3 w4,
    s = k1 ++ w1 ++ k2 ++ w2 ++ table ++ w3 ++ k3 ++ w4 ++ target
    ∧ keyword "DESCRIBE" k1 ∧ blank w1 ∧ keyword "TABLE" k2 ∧ blank w2
    ∧ identifier table ∧ blank w3 ∧ keyword "LINES" k3 ∧ blank w4
    ∧ identifier target.

(** The statement stands in [text] from offset [i] up to offset [j]. *)
Definition occurs_at (text : str) (i j : nat) (table target : str) : Prop :=
  (i ≤ j ≤ length text)%nat ∧ statement (substring text i j) table target.

(** An occurrence: start, end, table, target. *)
Abbreviation occurrence := (nat * nat * list N * list N)%type (only parsing).


(** The non-overlapping occurrences at or after [from], found from left to
    right, each search resuming where the last occurrence ended: the next
    one is the occurrence that starts first, taken with its identifiers in
    full. *)
Inductive occurrences (text : str) : nat -> list occurrence -> Prop :=
| occ_none from :
    (∀ i j tb tg, (from ≤ i)%nat → ¬ occurs_at text i j tb tg) →
    occurrences text from []
| occ_next from i j tb tg rest :
    (from ≤ i)%nat →
    occurs_at text i j tb tg →
    (∀ i' j' tb' tg', (from ≤ i')%nat → occurs_at text i' j' tb' tg' →
       (i ≤ i')%nat ∧ (i' = i → (j' ≤ j)%nat)) →
    occurrences text j rest →
    occurrences text from ((i, j, tb, tg) :: rest).

Definition occ_of (m : Match) : occurrence :=
  (m_start m, m_end m, group_text m "table", group_text m "target").

(** ** What a pattern matches

    [lang r a pos c0 c1]: the pattern [r] matches the string [a] standing at
    position [pos], and takes the groups from [c0] to [c1]. *)
Inductive lang : regex -> str -> nat -> captures -> captures -> Prop :=
| lang_lits l a pos c :
    Forall2 (fun p x => ignorecase_eq p x = true) l a →
    lang (Lits l) a pos c c
| lang_plus cls a pos c :
    a ≠ [] → Forall (fun x => cls x = true) a →
    lang (Plus cls) a pos c c
| lang_cat r1 r2 a b pos c0 c1 c2 :
    lang r1 a pos c0 c1 → lang r2 b (pos + length a) c1 c2 →
    lang (Cat r1 r2) (a ++ b) pos c0 c2
| lang_group g r a pos c0 c1 :
    lang r a pos c0 c1 →
    lang (Group g r) a pos c0 ((g, (pos, (pos + length a)%nat)) :: c1).

(** The string [s] begins with the statement, laid out in its nine pieces,
    and goes on with [b]. *)
Definition laid_out (s k1 w1 k2 w2 tb w3 k3 w4 tg b : str) : Prop :=
  s = k1 ++ w1 ++ k2 ++ w2 ++ tb ++ w3 ++ k3 ++ w4 ++ tg ++ b
  ∧ keyword "DESCRIBE" k1 ∧ blank w1 ∧ keyword "TABLE" k2 ∧ blank w2
  ∧ identifier tb ∧ blank w3 ∧ keyword "LINES" k3 ∧ blank w4
  ∧ identifier tg.

(** Taking apart a derivation of [lang] for a pattern that is given. *)
Ltac inv_lang :=
  repeat match goal with
  | H : lang (Cat _ _) _ _ _ _ |- _ => inversion H; subst; clear H
  | H : lang (Group _ _) _ _ _ _ |- _ => inversion H; subst; clear H
  | H : lang (Plus _) _ _ _ _ |- _ => inversion H; subst; clear H
  | H : lang (Lits _) _ _ _ _ |- _ => inversion H; subst; clear H
  end.

(** ** Facts about slices, counting and replacing *)

Lemma py_slice_prefix {A} (l : list A) (off : Z) :
  0 <= off <= Z.of_nat (length l) ->
  py_slice l 0 off = take (Z.to_nat off) l.
Proof.
  intros H. unfold py_slice, slice_index.
  destruct (Z.ltb_spec off 0); [lia|].
  change (0 <? 0) with false. cbn iota.
  rewrite Z.min_l by lia. rewrite Z.min_l by lia.
  simpl. f_equal. lia.
Qed.

Lemma py_slice_window {A} (l : list A) (lo hi : Z) :
  0 <= lo -> 0 <= hi <= Z.of_nat (length l) ->
  py_slice l lo hi = take (Z.to_nat hi - Z.to_nat lo) (drop (Z.to_nat lo) l).
Proof.
  intros Hlo Hhi. unfold py_slice, slice_index.
  destruct (Z.ltb_spec lo 0); [lia|].
  destruct (Z.ltb_spec hi 0); [lia|].
  rewrite (Z.min_l hi) by lia.
  destruct (Z.le_gt_cases lo (Z.of_nat (length l))) as [Hle|Hgt].
  - rewrite Z.min_l by lia. f_equal. lia.
  - rewrite Z.min_r by lia.
    rewrite !drop_ge by lia. by rewrite !take_nil.
Qed.

Lemma count_char_app c s1 s2 :
  count_char c (s1 ++ s2) = count_char c s1 + count_char c s2.
Proof. induction s1 as [|x s1 IH]; simpl; [lia|]. rewrite IH. lia. Qed.

Lemma str_replace_length c rep s :
  Z.of_nat (length (str_replace c rep s)) =
  Z.of_nat (length s) + count_char c s * (Z.of_nat (length rep) - 1).
Proof.
  induction s as [|x s IH]; simpl; [lia|].
  rewrite length_app. destruct (N.eqb x c); simpl; lia.
Qed.

Lemma str_replace_fresh c rep s : c ∉ rep -> c ∉ str_replace c rep s.
Proof.
  intros Hrep. induction s as [|x s IH]; simpl.
  - apply not_elem_of_nil.
  - rewrite elem_of_app. intros [Hin|Hin]; [|done].
    destruct (N.eqb_spec x c) as [->|Hne]; [done|].
    apply list_elem_of_singleton in Hin. congruence.
Qed.

(** ** The matcher is sound: what it returns is a match *)

Lemma exec_lits_sound l s pos s' pos' :
  exec_lits l s pos = Some (s', pos') →
  ∃ a, s = a ++ s' ∧ pos' = (pos + length a)%nat
       ∧ Forall2 (fun p x => ignorecase_eq p x = true) l a.
Proof.
  revert s pos. induction l as [|p l IH]; intros s pos H; simpl in H.
  - injection H as -> ->. exists []. split_and!; [done|simpl; lia|constructor].
  - destruct s as [|x s]; [done|].
    destruct (ignorecase_eq p x) eqn:E; [|done].
    apply IH in H as (a & -> & -> & Ha).
    exists (x :: a). split_and!; [done|simpl; lia|by constructor].
Qed.

Lemma exec_plus_sound cls s pos caps k x :
  exec_plus cls s pos caps k = Some x →
  ∃ a b, s = a ++ b ∧ a ≠ [] ∧ Forall (fun c => cls c = true) a
         ∧ k b (pos + length a)%nat caps = Some x.
Proof.
  revert pos. induction s as [|c s IH]; intros pos H; simpl in H; [done|].
  destruct (cls c) eqn:E; [|done].
  destruct (exec_plus cls s (S pos) caps k) as [r|] eqn:E'.
  - injection H as ->. apply IH in E' as (a & b & -> & _ & Ha & Hk).
    exists (c :: a), b. split_and!; [done|done|by constructor|].
    rewrite <- Hk. f_equal. simpl. lia.
  - exists [c], s. split_and!; [done|done|by repeat constructor|].
    rewrite <- H. f_equal. simpl. lia.
Qed.

Lemma exec_sound r s pos caps k x :
  exec r s pos caps k = Some x →
  ∃ a b caps', s = a ++ b ∧ lang r a pos caps caps'
               ∧ k b (pos + length a)%nat caps' = Some x.
Proof.
  revert s pos caps k x.
  induction r as [l|cls|r1 IH1 r2 IH2|g r IH]; intros s pos caps k x H; simpl in H.
  - destruct (exec_lits l s pos) as [[s' pos']|] eqn:E; [|done].
    apply exec_lits_sound in E as (a & -> & -> & Ha).
    exists a, s', caps. split_and!; [done|by constructor|done].
  - apply exec_plus_sound in H as (a & b & -> & Hne & Ha & Hk).
    exists a, b, caps. split_and!; [done|by constructor|done].
  - apply IH1 in H as (a & b & c1 & -> & Ha & H).
    apply IH2 in H as (a' & b' & c2 & -> & Ha' & H).
    exists (a ++ a'), b', c2. split_and!.
    + by rewrite (assoc_L (++)).
    + by econstructor.
    + rewrite <- H. f_equal. rewrite length_app. lia.
  - apply IH in H as (a & b & c1 & -> & Ha & H).
    exists a, b, ((g, (pos, (pos + length a)%nat)) :: c1).
    split_and!; [done|by constructor|done].
Qed.

Lemma match_at_sound r s pos e caps :
  match_at r s pos = Some (e, caps) →
  ∃ a b, s = a ++ b ∧ lang r a pos [] caps ∧ e = (pos + length a)%nat.
Proof.
  intros H. apply exec_sound in H as (a & b & c & -> & Ha & H).
  injection H as <- <-. by exists a, b.
Qed.

(** ** Characters *)

Lemma ascii_lower_cases c :
  (ascii_lower c = c ∧ ¬ (65 ≤ c ≤ 90)%N) ∨ (ascii_lower c = (c + 32)%N ∧ (65 ≤ c ≤ 90)%N).
Proof.
  unfold ascii_lower. destruct (in_range 65 90 c) eqn:E; bool_prop.
  - right. lia.
  - left. split; [done|]. unfold in_range in E.
    apply andb_false_iff in E as [E|E]; bool_prop; lia.
Qed.

Lemma ignorecase_letter_not_space p x :
  (65 ≤ p ≤ 90)%N → ignorecase_eq p x = true → is_space x = false.
Proof.
  intros Hp H. destruct (is_space x) eqn:E; [exfalso|done].
  unfold ignorecase_eq, is_space in *.
  destruct (ascii_lower_cases p) as [[Hl ?]|[Hl _]]; [lia|].
  rewrite Hl in H.
  destruct (ascii_lower_cases x) as [[Hx ?]|[Hx ?]]; rewrite Hx in H;
    bool_prop; lia.
Qed.

Lemma ascii_word_not_space c : is_ascii_word c = true → is_space c = false.
Proof.
  intros H. destruct (is_space c) eqn:E; [exfalso|done].
  unfold is_ascii_word, is_space in *. bool_prop; lia.
Qed.

Lemma word_not_space c : is_word c = true → is_space c = false.
Proof.
  unfold is_word. destruct (c <? 128)%N.
  - apply ascii_word_not_space.
  - intros H. destruct (is_space c) eqn:E; [|done].
    apply uni_alnum_not_space in E. congruence.
Qed.

Lemma space_not_word c : is_space c = true → is_word c = false.
Proof.
  intros H. destruct (is_word c) eqn:E; [|done].
  apply word_not_space in E. congruence.
Qed.

(** ** Matches of [DESCRIBE_TABLE_RE] *)

Lemma keyword_length kw s : keyword kw s → length s = length (lit kw).
Proof. intros H. symmetry. by eapply Forall2_length. Qed.

Lemma describe_sound s pos e caps :
  match_at DESCRIBE_TABLE_RE s pos = Some (e, caps) →
  ∃ k1 w1 k2 w2 tb w3 k3 w4 tg b,
    laid_out s k1 w1 k2 w2 tb w3 k3 w4 tg b
    ∧ e = (pos + length (k1 ++ w1 ++ k2 ++ w2 ++ tb ++ w3 ++ k3 ++ w4 ++ tg))%nat
    ∧ caps = [("target", ((pos + length (k1 ++ w1 ++ k2 ++ w2 ++ tb ++ w3 ++ k3 ++ w4))%nat, e));
              ("table", ((pos + length (k1 ++ w1 ++ k2 ++ w2))%nat,
                         (pos + length (k1 ++ w1 ++ k2 ++ w2 ++ tb))%nat))].
Proof.
  intros H. apply match_at_sound in H as (a & b & -> & H & ->).
  unfold DESCRIBE_TABLE_RE in H. inv_lang.
  match goal with
  | |- context [((?k1 ++ ?w1 ++ ?k2 ++ ?w2 ++ ?tb ++ ?w3 ++ ?k3 ++ ?w4 ++ ?tg) ++ b)] =>
      exists k1, w1, k2, w2, tb, w3, k3, w4, tg, b
  end.
  split; [|split].
  - unfold laid_out, keyword, blank, identifier. split_and!; try done.
    by rewrite <- !(assoc_L (++)).
  - done.
  - rewrite !length_app. repeat first [lia | progress f_equal].
Qed.

(** ** The matcher is complete, and greedy *)

Lemma exec_lits_app l a b pos :
  Forall2 (fun p x => ignorecase_eq p x = true) l a →
  exec_lits l (a ++ b) pos = Some (b, (pos + length a)%nat).
Proof.
  intros H. revert pos. induction H as [|p x l a Hpx _ IH]; intros pos; simpl.
  - destruct b; do 2 f_equal; lia.
  - rewrite Hpx, IH. do 2 f_equal. lia.
Qed.

Lemma exec_plus_stops cls b pos caps k :
  (∀ x, head b = Some x → cls x = false) →
  exec_plus cls b pos caps k = None.
Proof. destruct b as [|x b]; simpl; [done|]. intros H. by rewrite (H x). Qed.

(** A run of [cls] that the text does not continue is taken whole when the
    continuation succeeds on it. *)
Lemma exec_plus_greedy cls a b pos caps k r :
  a ≠ [] → Forall (fun x => cls x = true) a →
  (∀ x, head b = Some x → cls x = false) →
  k b (pos + length a)%nat caps = Some r →
  exec_plus cls (a ++ b) pos caps k = Some r.
Proof.
  intros Hne Ha Hb. revert pos. induction Ha as [|x a Hx Ha IH]; [done|].
  intros pos Hk. simpl. rewrite Hx.
  destruct a as [|y a].
  - simpl. rewrite exec_plus_stops by done.
    rewrite <- Hk. f_equal. simpl. lia.
  - rewrite IH; [done|done|]. rewrite <- Hk. f_equal. simpl. lia.
Qed.

Lemma span_run (cls : N → bool) (l : list N) :
  ∃ run rest, l = run ++ rest ∧ Forall (fun x => cls x = true) run
              ∧ (∀ x, head rest = Some x → cls x = false).
Proof.
  induction l as [|x l (run & rest & -> & Hrun & Hrest)].
  - exists [], []. by split_and!.
  - destruct (cls x) eqn:E.
    + exists (x :: run), rest. split_and!; [done|by constructor|done].
    + exists [], (x :: run ++ rest). split_and!; [done|constructor|].
      simpl. intros ? [= <-]. done.
Qed.

Lemma keyword_head_not_space kw k b x p :
  keyword kw k → head (lit kw) = Some p → (65 ≤ p ≤ 90)%N →
  head (k ++ b) = Some x → is_space x = false.
Proof.
  unfold keyword. intros Hk Hp Hr Hx.
  destruct Hk as [|p' x' l k' Hpx _]; [done|].
  simpl in Hp, Hx. injection Hp as ->. injection Hx as ->.
  by eapply ignorecase_letter_not_space.
Qed.

Lemma identifier_head_not_space tb b x :
  identifier tb → head (tb ++ b) = Some x → is_space x = false.
Proof.
  intros [Hne Hw] Hx. destruct Hw as [|y tb' Hy _]; [done|].
  simpl in Hx. injection Hx as ->. by apply word_not_space.
Qed.

Lemma blank_head_not_word w b x :
  blank w → head (w ++ b) = Some x → is_word x = false.
Proof.
  intros [Hne Hw] Hx. destruct Hw as [|y w' Hy _]; [done|].
  simpl in Hx. injection Hx as ->. by apply space_not_word.
Qed.

Lemma describe_complete s pos k1 w1 k2 w2 tb w3 k3 w4 tg b :
  laid_out s k1 w1 k2 w2 tb w3 k3 w4 tg b →
  ∃ run b',
    b = run ++ b' ∧ Forall (fun x => is_word x = true) run
    ∧ (∀ x, head b' = Some x → is_word x = false)
    ∧ match_at DESCRIBE_TABLE_RE s pos =
      Some ((pos + length (k1 ++ w1 ++ k2 ++ w2 ++ tb ++ w3 ++ k3 ++ w4 ++ tg ++ run))%nat,
            [("target", ((pos + length (k1 ++ w1 ++ k2 ++ w2 ++ tb ++ w3 ++ k3 ++ w4))%nat,
                         (pos + length (k1 ++ w1 ++ k2 ++ w2 ++ tb ++ w3 ++ k3 ++ w4 ++ tg ++ run))%nat));
             ("table", ((pos + length (k1 ++ w1 ++ k2 ++ w2))%nat,
                        (pos + length (k1 ++ w1 ++ k2 ++ w2 ++ tb))%nat))]).
Proof.
  intros (-> & Hk1 & Hw1 & Hk2 & Hw2 & Htb & Hw3 & Hk3 & Hw4 & Htg).
  destruct (span_run is_word b) as (run & b' & -> & Hrun & Hb').
  exists run, b'. split_and!; [done..|].
  unfold match_at, DESCRIBE_TABLE_RE. cbn [exec].
  rewrite exec_lits_app by exact Hk1.
  apply exec_plus_greedy; [apply Hw1..| |].
  { intros x. by apply (keyword_head_not_space "TABLE" _ _ _ 84%N). }
  rewrite exec_lits_app by exact Hk2.
  apply exec_plus_greedy; [apply Hw2..| |].
  { intros x. by apply identifier_head_not_space. }
  apply exec_plus_greedy; [apply Htb..| |].
  { intros x. by apply blank_head_not_word. }
  apply exec_plus_greedy; [apply Hw3..| |].
  { intros x. by apply (keyword_head_not_space "LINES" _ _ _ 76%N). }
  rewrite exec_lits_app by exact Hk3.
  apply exec_plus_greedy; [apply Hw4..| |].
  { intros x. by apply identifier_head_not_space. }
  rewrite (assoc_L (++) tg run b').
  apply exec_plus_greedy.
  - destruct Htg as [Hne _]. by destruct tg.
  - apply Forall_app. split; [apply Htg|done].
  - done.
  - rewrite !length_app. repeat first [lia | progress f_equal].
Qed.

(** ** Occurrences in a text *)

Lemma substring_at (text : list N) i a x b p q :
  drop i text = a ++ x ++ b → p = (i + length a)%nat → q = (p + length x)%nat →
  substring text p q = x.
Proof.
  intros H -> ->. unfold substring.
  rewrite <- drop_drop, H, drop_app_length.
  replace (i + length a + length x - (i + length a))%nat with (length x) by lia.
  by rewrite take_app_length.
Qed.

Lemma drop_cons_inv {A} (l : list A) i x s :
  drop i l = x :: s → drop (S i) l = s ∧ (i < length l)%nat.
Proof.
  intros H. split.
  - replace (S i) with (i + 1)%nat by lia. by rewrite <- drop_drop, H.
  - destruct (decide (i < length l)%nat); [done|]. by rewrite drop_ge in H by lia.
Qed.

Lemma laid_out_nonempty s k1 w1 k2 w2 tb w3 k3 w4 tg b :
  laid_out s k1 w1 k2 w2 tb w3 k3 w4 tg b →
  (0 < length tg ∧ 0 < length tb ∧ length k1 = 8)%nat.
Proof.
  intros (_ & Hk1 & _ & _ & _ & [Htb _] & _ & _ & _ & [Htg _]).
  apply keyword_length in Hk1. destruct tg, tb; simpl in *; try done.
  split_and!; [lia|lia|done].
Qed.

Lemma occurs_at_layout text i j tb tg :
  occurs_at text i j tb tg →
  ∃ k1 w1 k2 w2 w3 k3 w4,
    laid_out (drop i text) k1 w1 k2 w2 tb w3 k3 w4 tg (drop j text)
    ∧ j = (i + length (k1 ++ w1 ++ k2 ++ w2 ++ tb ++ w3 ++ k3 ++ w4 ++ tg))%nat.
Proof.
  intros [Hij (k1 & w1 & k2 & w2 & w3 & k3 & w4 & Hs & H)].
  exists k1, w1, k2, w2, w3, k3, w4.
  assert (Hlen : length (substring text i j) = (j - i)%nat).
  { unfold substring. rewrite length_take, length_drop. lia. }
  split.
  - split; [|exact H].
    rewrite <- (take_drop (j - i) (drop i text)) at 1.
    fold (substring text i j). rewrite Hs, drop_drop.
    replace (i + (j - i))%nat with j by lia.
    by rewrite <- !(assoc_L (++)).
  - rewrite <- Hs, Hlen. lia.
Qed.

Lemma layout_occurs_at text i k1 w1 k2 w2 tb w3 k3 w4 tg b :
  (i ≤ length text)%nat →
  laid_out (drop i text) k1 w1 k2 w2 tb w3 k3 w4 tg b →
  occurs_at text i (i + length (k1 ++ w1 ++ k2 ++ w2 ++ tb ++ w3 ++ k3 ++ w4 ++ tg))%nat tb tg.
Proof.
  intros Hi (Hs & H).
  set (a := k1 ++ w1 ++ k2 ++ w2 ++ tb ++ w3 ++ k3 ++ w4 ++ tg).
  assert (Hs' : drop i text = a ++ b).
  { rewrite Hs. unfold a. by rewrite <- !(assoc_L (++)). }
  split.
  - apply (f_equal length) in Hs'. rewrite length_drop, length_app in Hs'. lia.
  - exists k1, w1, k2, w2, w3, k3, w4. split; [|exact H].
    unfold substring. rewrite Hs'.
    replace (i + length a - i)%nat with (length a) by lia.
    by rewrite take_app_length.
Qed.

(** A match at [i] is an occurrence, and its groups are the two identifiers. *)
Lemma match_sound text i e caps :
  (i ≤ length text)%nat →
  match_at DESCRIBE_TABLE_RE (drop i text) i = Some (e, caps) →
  ∃ ts bs be,
    caps = [("target", (ts, e)); ("table", (bs, be))]
    ∧ occurs_at text i e (substring text bs be) (substring text ts e)
    ∧ (i + 8 < bs < be ∧ be < ts < e)%nat.
Proof.
  intros Hi H.
  apply describe_sound in H as (k1 & w1 & k2 & w2 & tb & w3 & k3 & w4 & tg & b & Hl & -> & ->).
  pose proof (layout_occurs_at _ _ _ _ _ _ _ _ _ _ _ _ Hi Hl) as Hocc.
  pose proof (laid_out_nonempty _ _ _ _ _ _ _ _ _ _ _ Hl) as (Htg & Htb & Hk1).
  destruct Hl as (Hs & _ & [Hw1 _] & _ & _ & _ & [Hw3 _] & _).
  eexists _, _, _. split; [reflexivity|]. split.
  - erewrite (substring_at text i (k1 ++ w1 ++ k2 ++ w2) tb); cycle 1.
    { rewrite Hs. by rewrite <- !(assoc_L (++)). }
    { done. }
    { rewrite !length_app. lia. }
    erewrite (substring_at text i (k1 ++ w1 ++ k2 ++ w2 ++ tb ++ w3 ++ k3 ++ w4) tg b); cycle 1.
    { rewrite Hs. by rewrite <- !(assoc_L (++)). }
    { done. }
    { rewrite !length_app. lia. }
    exact Hocc.
  - destruct w1, w3; try done. rewrite !length_app. simpl. lia.
Qed.

(** Where the statement occurs at [i], the pattern matches at [i]: the
    match has the same table, its target begins where the occurrence's
    does, and it ends no earlier. *)
Lemma match_complete text i j tb tg :
  occurs_at text i j tb tg →
  ∃ e ts bs be,
    match_at DESCRIBE_TABLE_RE (drop i text) i
      = Some (e, [("target", (ts, e)); ("table", (bs, be))])
    ∧ (j ≤ e)%nat ∧ tb = substring text bs be ∧ tg = substring text ts j.
Proof.
  intros H. apply occurs_at_layout in H as (k1 & w1 & k2 & w2 & w3 & k3 & w4 & Hl & Hj).
  destruct (describe_complete _ i _ _ _ _ _ _ _ _ _ _ Hl) as (run & b' & Hb & _ & _ & Hm).
  destruct Hl as (Hs & _).
  eexists _, _, _, _. split; [exact Hm|]. split_and!.
  - rewrite Hj, !length_app. lia.
  - symmetry. eapply (substring_at text i (k1 ++ w1 ++ k2 ++ w2)).
    + rewrite Hs. by rewrite <- !(assoc_L (++)).
    + done.
    + rewrite !length_app. lia.
  - symmetry. eapply (substring_at text i (k1 ++ w1 ++ k2 ++ w2 ++ tb ++ w3 ++ k3 ++ w4) tg).
    + rewrite Hs. by rewrite <- !(assoc_L (++)).
    + done.
    + rewrite Hj, !length_app. lia.
Qed.

(** ** [finditer] *)

Lemma finditer_from_matches r text s pos skip m :
  s = drop pos text → (pos ≤ length text)%nat →
  m ∈ finditer_from r text s pos skip →
  m_string m = text ∧ (pos ≤ m_start m ≤ length text)%nat
  ∧ match_at r (drop (m_start m) text) (m_start m) = Some (m_end m, m_groups m).
Proof.
  revert pos skip. induction s as [|x s IH]; intros pos skip Hs Hpos Hm.
  - destruct skip as [|skip]; simpl in Hm; [|by apply elem_of_nil in Hm].
    destruct (match_at r [] pos) as [[e caps]|] eqn:E; [|by apply elem_of_nil in Hm].
    apply list_elem_of_singleton in Hm as ->. simpl. by rewrite <- Hs.
  - symmetry in Hs. pose proof (drop_cons_inv _ _ _ _ Hs) as [Hs' Hlt].
    destruct skip as [|skip]; simpl in Hm.
    + destruct (match_at r (x :: s) pos) as [[e caps]|] eqn:E.
      * apply elem_of_cons in Hm as [->|Hm].
        -- simpl. rewrite Hs. split_and!; [done|lia|lia|done].
        -- apply IH in Hm as (? & ? & ?); [|done|lia]. split_and!; [done|lia|lia|done].
      * apply IH in Hm as (? & ? & ?); [|done|lia]. split_and!; [done|lia|lia|done].
    + apply IH in Hm as (? & ? & ?); [|done|lia]. split_and!; [done|lia|lia|done].
Qed.

Lemma no_occurrence_past_end text i j tb tg :
  (length text ≤ i)%nat → ¬ occurs_at text i j tb tg.
Proof.
  intros Hi H. pose proof H as [Hij _].
  apply occurs_at_layout in H as (k1 & w1 & k2 & w2 & w3 & k3 & w4 & Hl & Hj).
  apply laid_out_nonempty in Hl as (_ & _ & Hk1).
  rewrite !length_app in Hj. lia.
Qed.

Lemma occurrences_skip text from l :
  (∀ j tb tg, ¬ occurs_at text from j tb tg) →
  occurrences text (S from) l → occurrences text from l.
Proof.
  intros Hno H. inversion H as [? Hnone|? i j tb tg rest Hi Hocc Hmin Hrest]; subst.
  - constructor. intros i j tb tg Hi.
    destruct (decide (i = from)) as [->|]; [apply Hno|apply Hnone; lia].
  - constructor; [lia|done| |done].
    intros i' j' tb' tg' Hi' Hocc'.
    destruct (decide (i' = from)) as [->|]; [by apply Hno in Hocc'|].
    eapply Hmin; [lia|exact Hocc'].
Qed.

(** [finditer] yields the occurrences in the order of the text. *)
Lemma finditer_from_occurrences text s pos skip :
  s = drop pos text → (pos ≤ length text)%nat →
  occurrences text (pos + skip) (map occ_of (finditer_from DESCRIBE_TABLE_RE text s pos skip)).
Proof.
  revert pos skip. induction s as [|x s IH]; intros pos skip Hs Hpos.
  - assert (Hend : occurrences text (pos + skip) []).
    { constructor. intros i j tb tg Hi. apply no_occurrence_past_end.
      destruct (decide (length text ≤ pos)%nat); [lia|].
      apply (f_equal length) in Hs. rewrite length_drop in Hs. simpl in Hs. lia. }
    destruct skip as [|skip]; simpl; [|done].
    destruct (match_at DESCRIBE_TABLE_RE [] pos) as [[e caps]|] eqn:E; [|done].
    rewrite Hs in E. apply match_sound in E as (ts & bs & be & _ & Hocc & _); [|done].
    exfalso. revert Hocc. apply no_occurrence_past_end.
    destruct (decide (length text ≤ pos)%nat); [lia|].
    apply (f_equal length) in Hs. rewrite length_drop in Hs. simpl in Hs. lia.
  - symmetry in Hs. pose proof (drop_cons_inv _ _ _ _ Hs) as [Hs' Hlt].
    destruct skip as [|skip]; simpl.
    + destruct (match_at DESCRIBE_TABLE_RE (x :: s) pos) as [[e caps]|] eqn:E.
      * rewrite <- Hs in E. pose proof E as E'.
        apply match_sound in E' as (ts & bs & be & -> & Hocc & Hpos'); [|done].
        rewrite Nat.add_0_r. unfold occ_of at 1, group_text, group. simpl.
        constructor; [done|done| |].
        -- intros i' j' tb' tg' Hi' Hocc'. split; [done|]. intros ->.
           apply match_complete in Hocc' as (e' & ts' & bs' & be' & E' & Hj & _).
           assert (e' = e) by congruence. lia.
        -- specialize (IH (S pos) (e - pos - 1)%nat).
           replace (S pos + (e - pos - 1))%nat with e in IH by lia.
           apply IH; [done|lia].
      * rewrite Nat.add_0_r. apply occurrences_skip.
        -- intros j tb tg Hocc. apply match_complete in Hocc as (e' & ts' & bs' & be' & E' & _).
           rewrite Hs in E'. congruence.
        -- specialize (IH (S pos) 0%nat). rewrite Nat.add_0_r in IH. apply IH; [done|lia].
    + replace (pos + S skip)%nat with (S pos + skip)%nat by lia. apply IH; [done|lia].
Qed.

Lemma finditer_occurrences text :
  occurrences text 0 (map occ_of (finditer DESCRIBE_TABLE_RE text)).
Proof. apply (finditer_from_occurrences text text 0 0); [done|lia]. Qed.



Lemma occurs_at_nonempty text i j tb tg : occurs_at text i j tb tg → (i < j)%nat.
Proof.
  intros H. apply occurs_at_layout in H as (k1 & w1 & k2 & w2 & w3 & k3 & w4 & Hl & Hj).
  apply laid_out_nonempty in Hl as (_ & _ & Hk1). rewrite !length_app in Hj. lia.
Qed.



(** ** Running the code *)

Lemma run_bind {A B} (m : M A) (f : A → M B) h a h' :
  m h = Ok a h' → (m ≫= f) h = f a h'.
Proof. intros H. unfold mbind, M_bind. by rewrite H. Qed.

Lemma assoc_dict_set k v d : assoc k (dict_set k v d) = Some v.
Proof.
  induction d as [|[k' v'] d IH]; simpl.
  - by rewrite String.eqb_refl.
  - destruct (String.eqb k k') eqn:E; simpl; [by rewrite String.eqb_refl|by rewrite E].
Qed.

Lemma assoc_dict_set_ne k k' v d : k' ≠ k → assoc k' (dict_set k v d) = assoc k' d.
Proof.
  intros Hne. induction d as [|[k0 v0] d IH]; simpl.
  - destruct (String.eqb_spec k' k); [done|done].
  - destruct (String.eqb_spec k k0) as [<-|]; simpl.
    + by destruct (String.eqb_spec k' k).
    + by rewrite IH.
Qed.

Lemma insert_middle {A} (l1 l2 : list A) x y n :
  n = length l1 → <[n := y]> (l1 ++ x :: l2) = l1 ++ y :: l2.
Proof.
  intros ->. pose proof (insert_app_r l1 (x :: l2) 0 y) as H.
  by rewrite Nat.add_0_r in H.
Qed.

Lemma load_unit_run h l u : h !! l = Some (CUnit u) → load_unit l h = Ok u h.
Proof. intros H. unfold load_unit. by rewrite H. Qed.

Lemma list_append_run h vs rest v :
  list_append (length h) v (h ++ CList vs :: rest) = Ok tt (h ++ CList (vs ++ [v]) :: rest).
Proof.
  unfold list_append. rewrite list_lookup_middle by done.
  by rewrite insert_middle.
Qed.

(** Every match of the pattern has its two groups. *)
Lemma finditer_groups text m :
  m ∈ finditer DESCRIBE_TABLE_RE text →
  ∃ ts bs be,
    m_string m = text
    ∧ m_groups m = [("target", (ts, m_end m)); ("table", (bs, be))]
    ∧ occurs_at text (m_start m) (m_end m) (substring text bs be) (substring text ts (m_end m)).
Proof.
  intros Hm. apply finditer_from_matches in Hm as (Hstr & Hpos & Hm); [|done|lia].
  apply match_sound in Hm as (ts & bs & be & Hcaps & Hocc & _); [|lia].
  by exists ts, bs, be.
Qed.

Lemma finditer_group_text text m :
  m ∈ finditer DESCRIBE_TABLE_RE text →
  group m "table" = Some (group_text m "table")
  ∧ group m "target" = Some (group_text m "target").
Proof.
  intros Hm. apply finditer_groups in Hm as (ts & bs & be & _ & Hg & _).
  unfold group_text, group. rewrite Hg. simpl. done.
Qed.

Lemma findings_loop_run u l h acc ms :
  h !! l = Some (CUnit u) →
  (∀ m, m ∈ ms → group m "table" = Some (group_text m "table")
                 ∧ group m "target" = Some (group_text m "target")) →
  for_each ms (fun m =>
      table ← match_group m "table";
      target ← match_group m "target";
      u0 ← load_unit l;
      list_append (length h) (VDict (finding_dict u0 (unit_src u) m table target)))
    (h ++ [CList acc])
  = Ok tt (h ++ [CList (acc ++ map (finding_of u) ms)]).
Proof.
  intros Hl. revert acc. induction ms as [|m ms IH]; intros acc Hg; simpl.
  - by rewrite (right_id_L [] (++)).
  - destruct (Hg m) as [Htb Htg]; [apply list_elem_of_here|].
    erewrite run_bind; cycle 1.
    { unfold match_group. rewrite Htb.
      erewrite run_bind by reflexivity.
      unfold match_group. rewrite Htg.
      erewrite run_bind by reflexivity.
      erewrite run_bind; cycle 1.
      { apply load_unit_run. by apply lookup_app_l_Some. }
      apply list_append_run. }
    rewrite IH.
    + by rewrite <- (assoc_L (++)).
    + intros m' Hm'. apply Hg. by apply list_elem_of_further.
Qed.

Lemma lookup_last2 {A} (h : list A) a b :
  (h ++ [a; b]) !! length h = Some a ∧ (h ++ [a; b]) !! S (length h) = Some b.
Proof.
  split; [by apply list_lookup_middle|].
  change (h ++ [a; b]) with (h ++ [a] ++ [b]). rewrite (assoc_L (++)).
  apply list_lookup_middle. rewrite length_app. simpl. lia.
Qed.

Lemma insert_last {A} (h : list A) a b c :
  <[S (length h) := c]> (h ++ [a; b]) = h ++ [a; c].
Proof.
  change (h ++ [a; b]) with (h ++ [a] ++ [b]). rewrite (assoc_L (++)).
  rewrite insert_middle by (rewrite length_app; simpl; lia).
  by rewrite <- (assoc_L (++)).
Qed.

Lemma dump_and_attach_run h l u fs :
  h !! l = Some (CUnit u) →
  (obj ← unit_model_dump l;
   fs' ← load_list (length h);
   dict_setitem obj "describe_findings" (VList fs');;
   mret obj) (h ++ [CList fs])
  = Ok (S (length h))
       (h ++ [CList fs; CDict (dict_set "describe_findings" (VList fs) (model_dump u))]).
Proof.
  intros Hl.
  unfold unit_model_dump, mbind, M_bind, load_unit, alloc, load_list, dict_setitem, mret, M_ret.
  rewrite (lookup_app_l_Some _ _ _ _ Hl).
  rewrite <- (assoc_L (++)). simpl app.
  rewrite length_app. simpl length. rewrite Nat.add_1_r.
  destruct (lookup_last2 h (CList fs) (CDict (model_dump u))) as [-> ->].
  by rewrite insert_last.
Qed.

(** The run of [scan_unit]: two cells are allocated past the end of the
    store, the list of findings and the dictionary [obj]; nothing else is
    written. *)
Lemma scan_unit_run h l u :
  h !! l = Some (CUnit u) →
  scan_unit l h = Ok (S (length h)) (h ++ [CList (findings_of u); CDict (scan_result u)]).
Proof.
  intros Hl. unfold scan_unit.
  erewrite run_bind by (by apply load_unit_run).
  erewrite run_bind by reflexivity.
  erewrite run_bind; cycle 1.
  { apply (findings_loop_run u l h []); [done|].
    intros m. apply finditer_group_text. }
  by apply dump_and_attach_run.
Qed.

Lemma batch_loop_run h ls us acc tail :
  units_at h ls us →
  for_each ls (fun u =>
      res ← scan_unit u;
      fs ← dict_getitem res "describe_findings";
      if truthy fs
      then d ← load_dict res; list_append (length h) (VDict d)
      else mret tt)
    (h ++ CList acc :: tail)
  = Ok tt (h ++ CList (acc ++ batch_result us) :: tail ++ scan_cells us).
Proof.
  intros Hus. revert acc tail.
  induction Hus as [|l u ls us Hl _ IH]; intros acc tail; simpl.
  - unfold batch_result. simpl. by rewrite !(right_id_L [] (++)).
  - set (H := h ++ CList acc :: tail).
    set (cells := [CList (findings_of u); CDict (scan_result u)]).
    assert (Hrun : (res ← scan_unit l;
                    fs ← dict_getitem res "describe_findings";
                    if truthy fs
                    then d ← load_dict res; list_append (length h) (VDict d)
                    else mret tt) H
                   = Ok tt (h ++ CList (acc ++ batch_result [u]) :: tail ++ cells)).
    { erewrite run_bind; cycle 1.
      { apply scan_unit_run. unfold H. by apply lookup_app_l_Some. }
      fold cells.
      destruct (lookup_last2 H (CList (findings_of u)) (CDict (scan_result u))) as [_ Hres].
      erewrite run_bind; cycle 1.
      { unfold dict_getitem. unfold cells. rewrite Hres.
        unfold scan_result at 1. rewrite assoc_dict_set. reflexivity. }
      unfold batch_result. simpl List.filter.
      change (truthy (VList (findings_of u))) with (has_findings u).
      destruct (has_findings u).
      - erewrite run_bind; cycle 1.
        { unfold load_dict. unfold cells. rewrite Hres. reflexivity. }
        unfold H. rewrite <- (assoc_L (++)). simpl app. apply list_append_run.
      - unfold mret, M_ret, H. simpl. rewrite (right_id_L [] (++)).
        by rewrite <- (assoc_L (++)). }
    erewrite run_bind by exact Hrun.
    rewrite IH.
    assert ((acc ++ batch_result [u]) ++ batch_result us
            = acc ++ batch_result (u :: us)) as ->.
    { unfold batch_result. simpl List.filter.
      destruct (has_findings u); simpl; by rewrite <- ?(assoc_L (++)). }
    assert ((tail ++ cells) ++ scan_cells us = tail ++ scan_cells (u :: us)) as ->.
    { unfold cells. by rewrite <- (assoc_L (++)). }
    done.
Qed.

(** The run of [scan_describe_table]: the list [results] is allocated at
    the end of the store, then the cells of each scan. *)
Lemma scan_describe_table_run h ls us :
  units_at h ls us →
  scan_describe_table ls h
  = Ok (batch_result us) (h ++ CList (batch_result us) :: scan_cells us).
Proof.
  intros Hus. unfold scan_describe_table.
  erewrite run_bind by reflexivity.
  erewrite run_bind by (by apply (batch_loop_run h ls us [] [])).
  unfold load_list. simpl. by rewrite list_lookup_middle.
Qed.

(** ** The offset mapper and the snippet extractor *)

Lemma count_char_take text n :
  count_char LF (take n text) = newlines_before text n.
Proof.
  unfold newlines_before. induction n as [|n IH]; [by rewrite take_0|].
  rewrite seq_S, List.filter_app, length_app, Nat2Z.inj_add, <- IH. simpl.
  destruct (text !! n) as [x|] eqn:E.
  - rewrite (take_S_r _ _ _ E), count_char_app. simpl.
    destruct (N.eqb_spec x LF) as [->|Hne].
    + by rewrite bool_decide_eq_true_2.
    + rewrite bool_decide_eq_false_2 by congruence. done.
  - apply lookup_ge_None in E.
    rewrite !take_ge by lia. rewrite bool_decide_eq_false_2 by done. simpl. lia.
Qed.

Lemma str_replace_escape s :
  str_replace LF [BACKSLASH; 110%N] s = escape_line_breaks s.
Proof.
  unfold escape_line_breaks. induction s as [|x s IH]; [done|].
  simpl. rewrite IH. f_equal.
  destruct (N.eqb_spec x LF) as [->|Hne].
  - by rewrite bool_decide_eq_true_2.
  - by rewrite bool_decide_eq_false_2.
Qed.

Lemma line_of_offset_newlines text off :
  0 <= off <= Z.of_nat (length text) →
  line_of_offset text off = 1 + newlines_before text (Z.to_nat off).
Proof.
  intros H. unfold line_of_offset, str_count.
  rewrite py_slice_prefix by done. rewrite count_char_take. lia.
Qed.

Lemma snippet_at_window text start end_ :
  0 <= start <= end_ → end_ <= Z.of_nat (length text) →
  snippet_at text start end_ =
  escape_line_breaks (context_window text (Z.to_nat start) (Z.to_nat end_)).
Proof.
  intros H1 H2. unfold snippet_at. rewrite str_replace_escape. f_equal.
  rewrite py_slice_window by lia.
  unfold context_window, substring. f_equal; [|f_equal]; lia.
Qed.

Lemma count_char_str_replace c s :
  c ≠ LF → c ≠ BACKSLASH → c ≠ 110%N →
  count_char c (str_replace LF [BACKSLASH; 110%N] s) = count_char c s.
Proof.
  intros H1 H2 H3. induction s as [|x s IH]; [done|].
  cbn [str_replace count_char]. rewrite count_char_app, IH.
  destruct (N.eqb_spec x LF) as [->|Hx]; cbn [count_char].
  - replace (N.eqb BACKSLASH c) with false by (symmetry; apply N.eqb_neq; congruence).
    replace (N.eqb 110 c) with false by (symmetry; apply N.eqb_neq; congruence).
    replace (N.eqb LF c) with false by (symmetry; apply N.eqb_neq; congruence).
    lia.
  - lia.
Qed.

(** C5 (as amended).  For a text and a span with
    [0 <= start <= end_ <= len(text)], [snippet_at] returns the text from
    60 characters before [start] to 60 characters after [end_], cut at the
    bounds of the text, with every line feed replaced by the two characters
    backslash and [n]: the snippet has no line feed, and is one character
    longer per line feed replaced.  Only the line feed is replaced: every
    other character, the other line-break characters among them, occurs in
    the snippet as often as in the window. *)
Theorem snippet_at_is_escaped_window (text : str) (start end_ : Z) :
  0 <= start <= end_ → end_ <= Z.of_nat (length text) →
  let window := context_window text (Z.to_nat start) (Z.to_nat end_) in
  snippet_at text start end_ = escape_line_breaks window
  ∧ window = take (Z.to_nat (Z.min (Z.of_nat (length text)) (end_ + 60))
                   - Z.to_nat (Z.max 0 (start - 60)))
                  (drop (Z.to_nat (Z.max 0 (start - 60))) text)
  ∧ (LF ∉ snippet_at text start end_)
  ∧ Z.of_nat (length (snippet_at text start end_))
    = Z.of_nat (length window) + count_char LF window
  ∧ (∀ c, is_line_break c = true → c ≠ LF →
       count_char c (snippet_at text start end_) = count_char c window).
Proof.
  intros H1 H2 window. split_and!.
  - by apply snippet_at_window.
  - unfold window, context_window, substring. f_equal; [|f_equal]; lia.
  - unfold snippet_at. apply str_replace_fresh.
    intros Hin. apply elem_of_cons in Hin as [Hin|Hin]; [done|].
    apply list_elem_of_singleton in Hin. done.
  - rewrite snippet_at_window by done. fold window.
    rewrite <- str_replace_escape, str_replace_length. simpl. lia.
  - intros c Hc Hne. rewrite snippet_at_window by done. fold window.
    rewrite <- str_replace_escape. apply count_char_str_replace; [done|..].
    + intros ->. vm_compute in Hc. discriminate.
    + intros ->. vm_compute in Hc. discriminate.
Qed.

(** ** The findings of a unit *)

Lemma Forall2_map_self {A B} (P : B → A → Prop) (g : A → B) (l : list A) :
  (∀ x, x ∈ l → P (g x) x) → Forall2 P (map g l) l.
Proof.
  induction l as [|x l IH]; intros H; simpl; constructor.
  - apply H, list_elem_of_here.
  - apply IH. intros y Hy. by apply H, list_elem_of_further.
Qed.

Lemma Forall2_map_map {A B C} (P : B → C → Prop) (f : A → B) (g : A → C) (l : list A) :
  (∀ x, x ∈ l → P (f x) (g x)) → Forall2 P (map f l) (map g l).
Proof.
  induction l as [|x l IH]; intros H; simpl; constructor.
  - apply H, list_elem_of_here.
  - apply IH. intros y Hy. by apply H, list_elem_of_further.
Qed.

Lemma unit_src_code u text : code u = Some text → unit_src u = text.
Proof. unfold unit_src. intros ->. by destruct text. Qed.

(** C4.  For an offset within the text, [line_of_offset] is one more than
    the number of line feeds strictly before the offset, so offset 0 is on
    line 1; the [line] of every finding is the line of the start of its
    match.  In the text of scenario D the statement runs over three lines:
    the one finding has line 1, where DESCRIBE stands, while LINES (at
    offset 24) stands on line 3. *)
Theorem line_of_offset_counts_line_feeds :
  (∀ (text : str) (off : Z),
      0 <= off <= Z.of_nat (length text) →
      line_of_offset text off = 1 + newlines_before text (Z.to_nat off))
  ∧ (∀ text : str, line_of_offset text 0 = 1)
  ∧ (∀ (h : store) (l : loc) (u : Unit),
      h !! l = Some (CUnit u) →
      ∃ fs,
        scan_unit l h = Ok (S (length h)) (h ++ [CList fs; CDict (scan_result u)])
        ∧ Forall2 (fun f m => ∃ fd,
              f = VDict fd
              ∧ assoc "line" fd
                = Some (VInt (line_of_offset (unit_src u) (Z.of_nat (m_start m)))))
            fs (finditer DESCRIBE_TABLE_RE (unit_src u)))
  ∧ (let u := sample_unit ("DESCRIBE TABLE" +:+ NL +:+ "  LT_TAB" +:+ NL +:+ "LINES LV_N.") in
     ∃ fd,
       findings_of u = [VDict fd]
       ∧ assoc "line" fd = Some (VInt 1)
       ∧ substring (unit_src u) 24 29 = lit "LINES"
       ∧ line_of_offset (unit_src u) 24 = 3).
Proof.
  split_and!.
  - apply line_of_offset_newlines.
  - intros text. rewrite line_of_offset_newlines by lia. done.
  - intros h l u Hl. exists (findings_of u). split; [by apply scan_unit_run|].
    apply Forall2_map_self. intros m _. by eexists.
  - intros u.
    exists (match findings_of u with [VDict fd] => fd | _ => [] end).
    split_and!; vm_compute; reflexivity.
Qed.

(** C3.  A unit whose text is [DESCRIBE TABLE LT_TAB LINES LV_LINES.] gets
    exactly one finding; its [meta.replacement_syntax] is
    [DATA(LV_LINES) = LINES( LT_TAB ).] and its message is the template with
    LT_TAB for the table and LV_LINES for the target. *)
Theorem scenario_a_one_finding (h : store) (l : loc) (u : Unit) :
  h !! l = Some (CUnit u) →
  code u = Some (lit "DESCRIBE TABLE LT_TAB LINES LV_LINES.") →
  ∃ fd meta,
    scan_unit l h = Ok (S (length h)) (h ++ [CList [VDict fd]; CDict (scan_result u)])
    ∧ assoc "describe_findings" (scan_result u) = Some (VList [VDict fd])
    ∧ assoc "meta" fd = Some (VDict meta)
    ∧ assoc "replacement_syntax" meta = Some (VStr (lit "DATA(LV_LINES) = LINES( LT_TAB )."))
    ∧ assoc "message" fd = Some (VStr (message_of (lit "LT_TAB") (lit "LV_LINES")))
    ∧ message_of (lit "LT_TAB") (lit "LV_LINES")
      = lit "Obsolete 'DESCRIBE TABLE LT_TAB LINES LV_LINES' found. Use LINES( LT_TAB ) instead for S/4HANA compatibility."
    ∧ (∀ table target,
         message_of table target
         = lit "Obsolete 'DESCRIBE TABLE " ++ table ++ lit " LINES " ++ target
           ++ lit "' found. Use LINES( " ++ table
           ++ lit " ) instead for S/4HANA compatibility.").
Proof.
  intros Hl Hcode.
  set (m := {| m_string := lit "DESCRIBE TABLE LT_TAB LINES LV_LINES.";
               m_start := 0; m_end := 36;
               m_groups := [("target", (28, 36)%nat); ("table", (15, 21)%nat)] |}).
  assert (Hfs : findings_of u = [finding_of u m]).
  { unfold findings_of. rewrite (unit_src_code _ _ Hcode).
    replace (finditer DESCRIBE_TABLE_RE (lit "DESCRIBE TABLE LT_TAB LINES LV_LINES."))
      with [m] by (vm_compute; reflexivity).
    done. }
  eexists _, _. split_and!.
  - rewrite (scan_unit_run _ _ _ Hl), Hfs. reflexivity.
  - unfold scan_result. by rewrite assoc_dict_set, Hfs.
  - reflexivity.
  - vm_compute. reflexivity.
  - vm_compute. reflexivity.
  - vm_compute. reflexivity.
  - intros table target. unfold message_of.
    change (lit "' found. Use LINES( ") with (lit "' found. " ++ lit "Use LINES( ").
    by rewrite <- !(assoc_L (++)).
Qed.

(** C9.  The pattern does not ask for a token boundary before DESCRIBE: in
    [UNDESCRIBE TABLE T LINES N] it matches from offset 2, inside the word
    UNDESCRIBE (the character before the match is a word character), and
    the unit gets a finding for it. *)
Theorem describe_is_not_anchored :
  let u := sample_unit "UNDESCRIBE TABLE T LINES N" in
  let m := {| m_string := unit_src u; m_start := 2; m_end := 26;
              m_groups := [("target", (25, 26)%nat); ("table", (17, 18)%nat)] |} in
  finditer DESCRIBE_TABLE_RE (unit_src u) = [m]
  ∧ group0 m = lit "DESCRIBE TABLE T LINES N"
  ∧ (∃ c, unit_src u !! 1%nat = Some c ∧ is_word c = true)
  ∧ findings_of u = [finding_of u m]
  ∧ (∀ (h : store) (l : loc),
       h !! l = Some (CUnit u) →
       scan_unit l h
       = Ok (S (length h)) (h ++ [CList [finding_of u m]; CDict (scan_result u)])).
Proof.
  intros u m.
  assert (Hm : finditer DESCRIBE_TABLE_RE (unit_src u) = [m]) by (vm_compute; reflexivity).
  assert (Hfs : findings_of u = [finding_of u m]) by (unfold findings_of; by rewrite Hm).
  split_and!; [done|by vm_compute| |done|].
  - exists 78%N. by vm_compute.
  - intros h l Hl. by rewrite (scan_unit_run _ _ _ Hl), Hfs.
Qed.


Lemma has_findings_spec u : has_findings u = true ↔ findings_of u ≠ [].
Proof.
  unfold has_findings. destruct (findings_of u) as [|f fs]; split.
  - intros H. vm_compute in H. discriminate.
  - done.
  - done.
  - intros _. reflexivity.
Qed.

Lemma batch_result_app us1 us2 :
  batch_result (us1 ++ us2) = batch_result us1 ++ batch_result us2.
Proof. unfold batch_result. by rewrite List.filter_app, map_app. Qed.

Lemma units_at_app h ls1 ls2 us1 us2 :
  units_at h ls1 us1 → units_at h ls2 us2 → units_at h (ls1 ++ ls2) (us1 ++ us2).
Proof. apply Forall2_app. Qed.

Lemma units_at_extend h h' ls us : units_at h ls us → units_at (h ++ h') ls us.
Proof.
  intros H. eapply Forall2_impl; [exact H|].
  intros l u Hl. by apply lookup_app_l_Some.
Qed.

(** C2.  For units held in the store, [scan_describe_table] returns, without
    raising, the scan results of the units that have a finding, in the order
    of the input; a unit has a finding when its list of findings is not
    empty, and each result carries the findings of its unit.  With three
    units of which the second has no match, the results are those of the
    first and the third. *)
Theorem batch_keeps_units_with_findings :
  (∀ (h : store) (ls : list loc) (us : list Unit),
      units_at h ls us →
      ∃ h',
        scan_describe_table ls h
        = Ok (map (fun u => VDict (scan_result u)) (List.filter has_findings us)) h')
  ∧ (∀ u, has_findings u = true ↔ findings_of u ≠ [])
  ∧ (∀ u, assoc "describe_findings" (scan_result u) = Some (VList (findings_of u)))
  ∧ (let u1 := sample_unit "DESCRIBE TABLE LT_TAB LINES LV_LINES." in
     let u2 := sample_unit "WRITE 'hello'." in
     let u3 := sample_unit "describe table itab lines n." in
     ∀ (h : store) (ls : list loc),
       units_at h ls [u1; u2; u3] →
       ∃ h',
         scan_describe_table ls h = Ok [VDict (scan_result u1); VDict (scan_result u3)] h').
Proof.
  split_and!.
  - intros h ls us Hus. eexists. by apply scan_describe_table_run.
  - apply has_findings_spec.
  - intros u. unfold scan_result. by rewrite assoc_dict_set.
  - intros u1 u2 u3 h ls Hus. eexists.
    rewrite (scan_describe_table_run _ _ _ Hus).
    replace (batch_result [u1; u2; u3])
      with [VDict (scan_result u1); VDict (scan_result u3)]
      by (vm_compute; reflexivity).
    reflexivity.
Qed.

(** C6.  A unit whose [code] is null or empty is scanned as the empty text:
    the scan does not raise and attaches an empty list of findings, and in a
    batch the unit is left out of the results.  A unit built from a request
    without [code] has the empty text. *)
Theorem empty_code_has_no_findings (h : store) (l : loc) (u : Unit) :
  h !! l = Some (CUnit u) →
  code u = None ∨ code u = Some [] →
  unit_src u = []
  ∧ scan_unit l h = Ok (S (length h)) (h ++ [CList []; CDict (scan_result u)])
  ∧ assoc "describe_findings" (scan_result u) = Some (VList [])
  ∧ (∀ ls1 ls2 us1 us2,
       units_at h ls1 us1 → units_at h ls2 us2 →
       ∃ h',
         scan_describe_table (ls1 ++ l :: ls2) h = Ok (batch_result (us1 ++ us2)) h')
  ∧ (∀ p i t n s e d, code (Unit_init p i t n s e None d) = Some []).
Proof.
  intros Hl Hcode.
  assert (Hsrc : unit_src u = []) by (unfold unit_src; by destruct Hcode as [-> | ->]).
  assert (Hfs : findings_of u = []).
  { unfold findings_of. rewrite Hsrc. by vm_compute. }
  split_and!.
  - done.
  - rewrite (scan_unit_run _ _ _ Hl). by rewrite Hfs.
  - unfold scan_result. by rewrite assoc_dict_set, Hfs.
  - intros ls1 ls2 us1 us2 H1 H2. eexists.
    rewrite (scan_describe_table_run h (ls1 ++ l :: ls2) (us1 ++ u :: us2)).
    + f_equal. rewrite !batch_result_app.
      change (u :: us2) with ([u] ++ us2). rewrite batch_result_app.
      unfold batch_result at 2. simpl. unfold has_findings. rewrite Hfs. done.
    + apply units_at_app; [done|]. by constructor.
  - done.
Qed.

(** C7.  [scan_unit] leaves every object of the store as it was, the unit
    among them: it returns a new dictionary with one entry per field of the
    unit, in which [pgm_name], [inc_name], [type], [name], [start_line],
    [end_line] and [code] are the values of the unit, and
    [describe_findings] is the list of the findings of this scan, one per
    match of the pattern in the unit's code and in that order; each finding
    has the program, include, type, name, start line and end line of the
    unit, and the line of its match. *)
Theorem scan_unit_copies_the_unit (h : store) (l : loc) (u : Unit) :
  h !! l = Some (CUnit u) →
  ∃ obj h' d fs,
    scan_unit l h = Ok obj h'
    ∧ (∀ l' c, h !! l' = Some c → h' !! l' = Some c)
    ∧ h' !! l = Some (CUnit u)
    ∧ (length h ≤ obj)%nat
    ∧ h' !! obj = Some (CDict d)
    ∧ map fst d = ["pgm_name"; "inc_name"; "type"; "name"; "start_line"; "end_line";
                   "code"; "describe_findings"]
    ∧ assoc "pgm_name" d = Some (VStr (pgm_name u))
    ∧ assoc "inc_name" d = Some (VStr (inc_name u))
    ∧ assoc "type" d = Some (VStr (type u))
    ∧ assoc "name" d = Some (match name u with Some s => VStr s | None => VNone end)
    ∧ assoc "start_line" d
      = Some (match start_line u with Some z => VInt z | None => VNone end)
    ∧ assoc "end_line" d
      = Some (match end_line u with Some z => VInt z | None => VNone end)
    ∧ assoc "code" d = Some (match code u with Some s => VStr s | None => VNone end)
    ∧ map fst d = map fst (model_dump u)
    ∧ (∀ k, k ≠ "describe_findings" → assoc k d = assoc k (model_dump u))
    ∧ assoc "describe_findings" d = Some (VList fs)
    ∧ Forall2 (fun f m => ∃ fd,
          f = VDict fd
          ∧ assoc "pgm_name" fd = Some (VStr (pgm_name u))
          ∧ assoc "inc_name" fd = Some (VStr (inc_name u))
          ∧ assoc "type" fd = Some (VStr (type u))
          ∧ assoc "name" fd
            = Some (match name u with Some s => VStr s | None => VNone end)
          ∧ assoc "start_line" fd
            = Some (match start_line u with Some z => VInt z | None => VNone end)
          ∧ assoc "end_line" fd
            = Some (match end_line u with Some z => VInt z | None => VNone end)
          ∧ assoc "line" fd
            = Some (VInt (line_of_offset
                            (match code u with Some (c :: s) => c :: s | _ => [] end)
                            (Z.of_nat (m_start m)))))
        fs (finditer DESCRIBE_TABLE_RE
              (match code u with Some (c :: s) => c :: s | _ => [] end)).
Proof.
  intros Hl.
  exists (S (length h)), (h ++ [CList (findings_of u); CDict (scan_result u)]),
    (scan_result u), (findings_of u).
  split_and!.
  - by apply scan_unit_run.
  - intros l' c Hc. by apply lookup_app_l_Some.
  - by apply lookup_app_l_Some.
  - lia.
  - apply lookup_last2.
  - reflexivity.
  - reflexivity.
  - reflexivity.
  - reflexivity.
  - reflexivity.
  - reflexivity.
  - reflexivity.
  - reflexivity.
  - reflexivity.
  - intros k Hk. unfold scan_result. by apply assoc_dict_set_ne.
  - unfold scan_result. apply assoc_dict_set.
  - assert (Hsrc : (match code u with Some (c :: s) => c :: s | _ => [] end) = unit_src u).
    { unfold unit_src, str_or. by destruct (code u) as [[|c s]|]. }
    rewrite Hsrc. unfold findings_of. apply Forall2_map_self. intros m _.
    eexists. split; [reflexivity|]. by split_and!.
Qed.

(** C8.  Scanning is repeatable: a second scan of the same unit, in the
    store that the first scan leaves, returns a dictionary equal to the
    first, with the same findings in the same order; the result depends on
    the unit alone, not on the rest of the store; and a second run of the
    batch on the same units returns the same list. *)
Theorem scanning_is_repeatable :
  (∀ (h : store) (l : loc) (u : Unit),
      h !! l = Some (CUnit u) →
      ∃ obj1 h1 obj2 h2 d,
        scan_unit l h = Ok obj1 h1 ∧ scan_unit l h1 = Ok obj2 h2
        ∧ h1 !! obj1 = Some (CDict d) ∧ h2 !! obj2 = Some (CDict d)
        ∧ assoc "describe_findings" d = Some (VList (findings_of u)))
  ∧ (∀ (h h' : store) (l l' : loc) (u : Unit),
      h !! l = Some (CUnit u) → h' !! l' = Some (CUnit u) →
      ∃ obj h1 obj' h1' d,
        scan_unit l h = Ok obj h1 ∧ scan_unit l' h' = Ok obj' h1'
        ∧ h1 !! obj = Some (CDict d) ∧ h1' !! obj' = Some (CDict d))
  ∧ (∀ (h : store) (ls : list loc) (us : list Unit),
      units_at h ls us →
      ∃ r h1 h2,
        scan_describe_table ls h = Ok r h1 ∧ scan_describe_table ls h1 = Ok r h2).
Proof.
  split_and!.
  - intros h l u Hl.
    set (h1 := h ++ [CList (findings_of u); CDict (scan_result u)]).
    assert (Hl1 : h1 !! l = Some (CUnit u)) by by apply lookup_app_l_Some.
    exists (S (length h)), h1, (S (length h1)),
      (h1 ++ [CList (findings_of u); CDict (scan_result u)]), (scan_result u).
    split_and!.
    + by apply scan_unit_run.
    + by apply scan_unit_run.
    + apply lookup_last2.
    + apply lookup_last2.
    + unfold scan_result. apply assoc_dict_set.
  - intros h h' l l' u Hl Hl'.
    eexists _, _, _, _, (scan_result u). split_and!.
    + by apply scan_unit_run.
    + by apply scan_unit_run.
    + apply lookup_last2.
    + apply lookup_last2.
  - intros h ls us Hus. eexists _, _, _. split.
    + by apply scan_describe_table_run.
    + apply scan_describe_table_run. by apply units_at_extend.
Qed.

Lemma str_strip_id ws (s s1 s2 : list N) x y :
  s = x :: s1 → s = s2 ++ [y] → ws x = false → ws y = false →
  str_strip ws s = s.
Proof.
  intros H1 H2 Hx Hy. unfold str_strip.
  rewrite H1 at 1. simpl lstrip. rewrite Hx, <- H1.
  rewrite H2 at 1. rewrite reverse_snoc. simpl lstrip. rewrite Hy.
  by rewrite <- reverse_snoc, <- H2, reverse_involutive.
Qed.

Lemma statement_strip s tb tg : statement s tb tg → str_strip is_space s = s.
Proof.
  intros (k1 & w1 & k2 & w2 & w3 & k3 & w4 & -> & Hk1 & _ & _ & _ & _ & _ & _ & _ & [Hne Htg]).
  unfold keyword in Hk1. change (lit "DESCRIBE") with (68%N :: lit "ESCRIBE") in Hk1.
  inversion Hk1 as [|p x l k1' Hpx _]; subst.
  destruct tg as [|y tg' _] using rev_ind; [done|].
  apply Forall_app in Htg as [_ Hy]. apply Forall_inv in Hy.
  apply (str_strip_id _ _ (k1' ++ w1 ++ k2 ++ w2 ++ tb ++ w3 ++ k3 ++ w4 ++ tg' ++ [y])
           ((x :: k1') ++ w1 ++ k2 ++ w2 ++ tb ++ w3 ++ k3 ++ w4 ++ tg') x y).
  - reflexivity.
  - by rewrite <- !(assoc_L (++)).
  - apply (ignorecase_letter_not_space 68); [lia|done].
  - by apply word_not_space.
Qed.


(** ** More about the offset mapper *)

Lemma count_char_nonneg c s : 0 <= count_char c s.
Proof. induction s as [|x s IH]; simpl; [lia|]. destruct (N.eqb x c); lia. Qed.

Lemma count_char_take_le c k s : count_char c (take k s) <= count_char c s.
Proof.
  rewrite <- (take_drop k s) at 2. rewrite count_char_app.
  pose proof (count_char_nonneg c (drop k s)). lia.
Qed.

Lemma count_char_take_mono c j k s :
  (j ≤ k)%nat → count_char c (take j s) <= count_char c (take k s).
Proof.
  intros H. replace j with (Nat.min j k) by lia.
  rewrite <- take_take. apply count_char_take_le.
Qed.

Lemma slice_index_bounds n i : 0 <= n → 0 <= slice_index n i <= n.
Proof. intros H. unfold slice_index. destruct (Z.ltb_spec i 0); lia. Qed.

Lemma py_slice_from_0 {A} (l : list A) (off : Z) :
  py_slice l 0 off = take (Z.to_nat (slice_index (Z.of_nat (length l)) off)) l.
Proof.
  unfold py_slice.
  assert (slice_index (Z.of_nat (length l)) 0 = 0) as ->.
  { unfold slice_index. change (0 <? 0) with false. cbn iota. lia. }
  simpl. f_equal. lia.
Qed.

Lemma line_of_offset_take text off :
  line_of_offset text off
  = 1 + count_char LF (take (Z.to_nat (slice_index (Z.of_nat (length text)) off)) text).
Proof. unfold line_of_offset, str_count. rewrite py_slice_from_0. lia. Qed.

Lemma line_of_offset_range text off :
  1 <= line_of_offset text off <= 1 + count_char LF text.
Proof.
  rewrite line_of_offset_take.
  pose proof (count_char_nonneg LF
    (take (Z.to_nat (slice_index (Z.of_nat (length text)) off)) text)).
  pose proof (count_char_take_le LF
    (Z.to_nat (slice_index (Z.of_nat (length text)) off)) text).
  lia.
Qed.

Lemma line_of_offset_le text a b :
  0 <= a <= b → line_of_offset text a <= line_of_offset text b.
Proof.
  intros H. rewrite !line_of_offset_take.
  assert (count_char LF (take (Z.to_nat (slice_index (Z.of_nat (length text)) a)) text)
          <= count_char LF (take (Z.to_nat (slice_index (Z.of_nat (length text)) b)) text)).
  { apply count_char_take_mono. unfold slice_index.
    destruct (Z.ltb_spec a 0); [lia|]. destruct (Z.ltb_spec b 0); lia. }
  lia.
Qed.

(** X1.  [line_of_offset] never fails and stays between 1 and one more
    than the number of line feeds of the text: an offset at or past the end
    gives the last line, and a negative offset is counted from the end of
    the text, as Python slices do (and from the start when it reaches
    before it). *)
Theorem line_of_offset_any_offset (text : str) (off : Z) :
  1 <= line_of_offset text off <= 1 + count_char LF text
  ∧ (Z.of_nat (length text) <= off → line_of_offset text off = 1 + count_char LF text)
  ∧ (off < 0 →
     line_of_offset text off
     = line_of_offset text (Z.max 0 (off + Z.of_nat (length text)))).
Proof.
  rewrite !line_of_offset_take. split_and!.
  - pose proof (count_char_nonneg LF
      (take (Z.to_nat (slice_index (Z.of_nat (length text)) off)) text)).
    lia.
  - pose proof (count_char_take_le LF
      (Z.to_nat (slice_index (Z.of_nat (length text)) off)) text).
    lia.
  - intros H. unfold slice_index. destruct (Z.ltb_spec off 0); [lia|].
    rewrite Z.min_r by lia. rewrite take_ge by lia. done.
  - intros H.
    assert (slice_index (Z.of_nat (length text)) off
            = slice_index (Z.of_nat (length text))
                (Z.max 0 (off + Z.of_nat (length text)))) as <-; [|done].
    unfold slice_index. destruct (Z.ltb_spec off 0); [|lia].
    destruct (Z.ltb_spec (Z.max 0 (off + Z.of_nat (length text))) 0); lia.
Qed.

(** X2.  Lines grow with offsets: for [0 <= a <= b] the line of [a] is at
    most the line of [b], whether or not [b] lies within the text. *)
Theorem line_of_offset_monotone (text : str) (a b : Z) :
  0 <= a <= b → line_of_offset text a <= line_of_offset text b.
Proof.
  intros H. pose proof (line_of_offset_le text a b H) as Hle.
  pose proof (line_of_offset_range text a). pose proof (line_of_offset_range text b).
  lia.
Qed.

(** X4.  Lines add up over concatenation: an offset [k] into the second of
    two texts is, in their concatenation, on the line it has in the second
    text plus the line feeds of the first. *)
Theorem line_of_offset_app (a b : str) (k : Z) :
  0 <= k <= Z.of_nat (length b) →
  line_of_offset (a ++ b) (Z.of_nat (length a) + k)
  = count_char LF a + line_of_offset b k.
Proof.
  intros H. rewrite !line_of_offset_take.
  unfold slice_index.
  destruct (Z.ltb_spec (Z.of_nat (length a) + k) 0); [lia|].
  destruct (Z.ltb_spec k 0); [lia|].
  rewrite length_app, Nat2Z.inj_add. rewrite !Z.min_l by lia.
  replace (Z.to_nat (Z.of_nat (length a) + k)) with (length a + Z.to_nat k)%nat by lia.
  rewrite take_app_add, count_char_app. lia.
Qed.

(** ** More about the snippet extractor *)

Lemma substring_split (text : list N) a b c :
  (a ≤ b ≤ c)%nat →
  substring text a c = substring text a b ++ substring text b c.
Proof.
  intros H. unfold substring.
  replace (c - a)%nat with ((b - a) + (c - b))%nat by lia.
  rewrite <- take_take_drop, drop_drop.
  by replace (a + (b - a))%nat with b by lia.
Qed.

Lemma substring_length (text : list N) a b :
  (a ≤ b ≤ length text)%nat → length (substring text a b) = (b - a)%nat.
Proof. intros H. unfold substring. rewrite length_take, length_drop. lia. Qed.

Lemma escape_line_breaks_app s1 s2 :
  escape_line_breaks (s1 ++ s2) = escape_line_breaks s1 ++ escape_line_breaks s2.
Proof. unfold escape_line_breaks. apply flat_map_app. Qed.

Lemma count_char_le_length c s : count_char c s <= Z.of_nat (length s).
Proof. induction s as [|x s IH]; simpl; [lia|]. destruct (N.eqb x c); lia. Qed.

Lemma snippet_at_three_parts text start end_ :
  0 <= start <= end_ → end_ <= Z.of_nat (length text) →
  snippet_at text start end_
  = escape_line_breaks (substring text (Z.to_nat start - 60) (Z.to_nat start))
    ++ escape_line_breaks (substring text (Z.to_nat start) (Z.to_nat end_))
    ++ escape_line_breaks
         (substring text (Z.to_nat end_) (Nat.min (length text) (Z.to_nat end_ + 60))).
Proof.
  intros H1 H2. rewrite snippet_at_window by done. unfold context_window.
  rewrite (substring_split text _ (Z.to_nat start)) by lia.
  rewrite (substring_split text (Z.to_nat start) (Z.to_nat end_)) by lia.
  by rewrite !escape_line_breaks_app.
Qed.

(** X5.  For a span within the text, the snippet is made of three parts,
    each with its line feeds escaped: up to 60 characters of the text
    before the span, the text of the span, and up to 60 characters after
    it. *)
Theorem snippet_at_frames_the_span (text : str) (start end_ : Z) :
  0 <= start <= end_ → end_ <= Z.of_nat (length text) →
  let s := Z.to_nat start in
  let e := Z.to_nat end_ in
  let before := substring text (s - 60) s in
  let after := substring text e (Nat.min (length text) (e + 60)) in
  snippet_at text start end_
  = escape_line_breaks before ++ escape_line_breaks (substring text s e)
    ++ escape_line_breaks after
  ∧ (length before ≤ 60)%nat ∧ (length after ≤ 60)%nat
  ∧ (60 <= start → length before = 60%nat)
  ∧ (end_ + 60 <= Z.of_nat (length text) → length after = 60%nat).
Proof.
  intros H1 H2 s e before after. split_and!.
  - by apply snippet_at_three_parts.
  - unfold before. rewrite substring_length by lia. lia.
  - unfold after. rewrite substring_length by lia. lia.
  - intros H. unfold before. rewrite substring_length by lia. lia.
  - intros H. unfold after. rewrite substring_length by lia. lia.
Qed.

(** X6.  For a span within the text, the snippet is at least as long as
    the span and at most twice the span and its 120 characters of context. *)
Theorem snippet_at_length_bounds (text : str) (start end_ : Z) :
  0 <= start <= end_ → end_ <= Z.of_nat (length text) →
  end_ - start <= Z.of_nat (length (snippet_at text start end_))
               <= 2 * (end_ - start + 120).
Proof.
  intros H1 H2.
  rewrite snippet_at_window by done.
  rewrite <- str_replace_escape, str_replace_length.
  set (w := context_window text (Z.to_nat start) (Z.to_nat end_)).
  assert (Hw : Z.of_nat (length w)
               = Z.of_nat (Nat.min (length text) (Z.to_nat end_ + 60) - (Z.to_nat start - 60))).
  { unfold w, context_window. rewrite substring_length by lia. done. }
  pose proof (count_char_nonneg LF w). pose proof (count_char_le_length LF w).
  simpl length. lia.
Qed.

(** X7.  The escape is not reversible: backslashes are not escaped, so a
    line feed and the two characters backslash and [n] give the same
    snippet.  (The two texts below differ, one has a line feed where the
    other has backslash and [n]; shown for texts short enough to be in the
    window whole.) *)
Theorem snippet_at_hides_line_feeds (s1 s2 : str) (start end_ : Z) :
  0 <= start <= 60 → 0 <= end_ → (length s1 + length s2 + 2 ≤ 60)%nat →
  str_replace LF [BACKSLASH; 110%N] (s1 ++ [LF] ++ s2)
  = str_replace LF [BACKSLASH; 110%N] (s1 ++ [BACKSLASH; 110%N] ++ s2)
  ∧ snippet_at (s1 ++ [LF] ++ s2) start end_
    = snippet_at (s1 ++ [BACKSLASH; 110%N] ++ s2) start end_
  ∧ s1 ++ [LF] ++ s2 ≠ s1 ++ [BACKSLASH; 110%N] ++ s2.
Proof.
  intros H1 H2 H3.
  assert (Hr : str_replace LF [BACKSLASH; 110%N] (s1 ++ [LF] ++ s2)
               = str_replace LF [BACKSLASH; 110%N] (s1 ++ [BACKSLASH; 110%N] ++ s2)).
  { rewrite !str_replace_escape, !escape_line_breaks_app. done. }
  assert (Hwhole : ∀ t : list N, (length t ≤ 60)%nat →
            snippet_at t start end_ = str_replace LF [BACKSLASH; 110%N] t).
  { intros t Ht. unfold snippet_at. f_equal.
    unfold py_slice, slice_index.
    destruct (Z.ltb_spec (Z.max 0 (start - 60)) 0); [lia|].
    destruct (Z.ltb_spec (Z.min (Z.of_nat (length t)) (end_ + 60)) 0); [lia|].
    replace (Z.to_nat (Z.min (Z.max 0 (start - 60)) (Z.of_nat (length t)))) with 0%nat by lia.
    simpl drop. apply take_ge. lia. }
  split_and!.
  - exact Hr.
  - rewrite !Hwhole by (rewrite !length_app; simpl; lia). exact Hr.
  - intros Heq. apply app_inv_head in Heq. discriminate.
Qed.

(** ** More about the matches and the findings of a unit *)

Lemma finditer_from_lower r text s pos skip :
  Forall (fun m => (pos + skip ≤ m_start m)%nat) (finditer_from r text s pos skip).
Proof.
  revert pos skip. induction s as [|x s IH]; intros pos skip.
  - destruct skip; simpl; [|constructor].
    destruct (match_at r [] pos) as [[e caps]|]; repeat constructor. simpl. lia.
  - destruct skip as [|skip]; simpl.
    + destruct (match_at r (x :: s) pos) as [[e caps]|].
      * constructor; [simpl; lia|].
        eapply Forall_impl; [apply IH|]. simpl. intros m Hm. lia.
      * eapply Forall_impl; [apply IH|]. simpl. intros m Hm. lia.
    + eapply Forall_impl; [apply IH|]. simpl. intros m Hm. lia.
Qed.

Lemma finditer_from_sorted r text s pos skip :
  StronglySorted (fun m1 m2 => (m_start m1 < m_start m2)%nat)
    (finditer_from r text s pos skip).
Proof.
  revert pos skip. induction s as [|x s IH]; intros pos skip.
  - destruct skip; simpl; [|constructor].
    destruct (match_at r [] pos) as [[e caps]|]; repeat constructor.
  - destruct skip as [|skip]; simpl; [|apply IH].
    destruct (match_at r (x :: s) pos) as [[e caps]|]; [|apply IH].
    constructor; [apply IH|].
    eapply Forall_impl; [apply finditer_from_lower|]. simpl. intros m Hm. lia.
Qed.

Lemma StronglySorted_map {A B} (R : A → A → Prop) (S : B → B → Prop) (f : A → B) l :
  (∀ x y, R x y → S (f x) (f y)) → StronglySorted R l → StronglySorted S (map f l).
Proof.
  intros HRS H. induction H as [|x l Hl IH Hx]; simpl; constructor; [done|].
  apply Forall_forall. intros y Hy. apply list_elem_of_In, in_map_iff in Hy as (z & <- & Hz).
  apply HRS. rewrite Forall_forall in Hx. by apply Hx, list_elem_of_In.
Qed.

(** X3.  The findings of a unit are in the order of the text: their [line]
    values never decrease along the list, and each lies between 1 and one
    more than the number of line feeds of the unit's text. *)
Theorem finding_lines_ascend (h : store) (l : loc) (u : Unit) :
  h !! l = Some (CUnit u) →
  ∃ fs lines,
    scan_unit l h = Ok (S (length h)) (h ++ [CList fs; CDict (scan_result u)])
    ∧ Forall2 (fun f n => ∃ fd, f = VDict fd ∧ assoc "line" fd = Some (VInt n)) fs lines
    ∧ StronglySorted Z.le lines
    ∧ Forall (fun n => 1 <= n <= 1 + count_char LF (unit_src u)) lines.
Proof.
  intros Hl.
  exists (findings_of u),
    (map (fun m => line_of_offset (unit_src u) (Z.of_nat (m_start m)))
       (finditer DESCRIBE_TABLE_RE (unit_src u))).
  split_and!.
  - by apply scan_unit_run.
  - unfold findings_of. apply Forall2_map_map. intros m _. by eexists.
  - apply (StronglySorted_map (fun m1 m2 => (m_start m1 < m_start m2)%nat));
      [|apply finditer_from_sorted].
    intros m1 m2 H. apply line_of_offset_le. lia.
  - apply Forall_forall. intros n Hn.
    apply list_elem_of_In, in_map_iff in Hn as (m & <- & _).
    apply line_of_offset_range.
Qed.

Lemma keyword_lengths k1 k2 k3 :
  keyword "DESCRIBE" k1 → keyword "TABLE" k2 → keyword "LINES" k3 →
  length k1 = 8%nat ∧ length k2 = 5%nat ∧ length k3 = 5%nat.
Proof.
  intros H1 H2 H3.
  apply keyword_length in H1, H2, H3. by rewrite H1, H2, H3.
Qed.

Lemma blank_length w : blank w → (1 ≤ length w)%nat.
Proof. intros [H _]. destruct w; [done|simpl; lia]. Qed.

Lemma identifier_length w : identifier w → (1 ≤ length w)%nat.
Proof. intros [H _]. destruct w; [done|simpl; lia]. Qed.

Lemma occurs_at_length text i j tb tg : occurs_at text i j tb tg → (i + 24 ≤ j)%nat.
Proof.
  intros H. apply occurs_at_layout in H as (k1 & w1 & k2 & w2 & w3 & k3 & w4 & Hl & Hj).
  destruct Hl as (_ & Hk1 & Hw1 & Hk2 & Hw2 & Htb & Hw3 & Hk3 & Hw4 & Htg).
  destruct (keyword_lengths _ _ _ Hk1 Hk2 Hk3) as (? & ? & ?).
  apply blank_length in Hw1, Hw2, Hw3, Hw4. apply identifier_length in Htb, Htg.
  rewrite !length_app in Hj. lia.
Qed.

(** X8.  A match takes its identifiers whole: both groups are non-empty
    runs of word characters, the character after the match (if any) is not
    a word character, and a match spans at least 24 characters within the
    text. *)
Theorem match_takes_whole_identifiers (text : str) (m : Match) :
  m ∈ finditer DESCRIBE_TABLE_RE text →
  ∃ tb tg,
    group m "table" = Some tb ∧ group m "target" = Some tg
    ∧ identifier tb ∧ identifier tg
    ∧ (m_start m + 24 ≤ m_end m ≤ length text)%nat
    ∧ (∀ c, text !! m_end m = Some c → is_word c = false).
Proof.
  intros Hm. apply finditer_from_matches in Hm as (Hstr & Hpos & Hm); [|done|lia].
  pose proof Hm as Hm'.
  apply describe_sound in Hm'
    as (k1 & w1 & k2 & w2 & tb & w3 & k3 & w4 & tg & b & Hl & He & Hcaps).
  destruct (describe_complete _ (m_start m) _ _ _ _ _ _ _ _ _ _ Hl)
    as (run & b' & Hb & _ & Hb' & Hm'').
  rewrite Hm in Hm''. injection Hm'' as He' _.
  assert (run = []) as ->.
  { rewrite He in He'. rewrite !length_app in He'. destruct run; [done|simpl in He'; lia]. }
  simpl in Hb. subst b'.
  pose proof (layout_occurs_at text (m_start m) _ _ _ _ _ _ _ _ _ _ (proj2 Hpos) Hl) as Hocc.
  rewrite <- He in Hocc.
  pose proof Hl as (Hs & _ & _ & _ & _ & Htb & _ & _ & _ & Htg).
  exists tb, tg. split_and!.
  - unfold group. rewrite Hcaps, Hstr. simpl. f_equal.
    eapply (substring_at text (m_start m) (k1 ++ w1 ++ k2 ++ w2) tb).
    + rewrite Hs. by rewrite <- !(assoc_L (++)).
    + done.
    + rewrite !length_app. lia.
  - unfold group. rewrite Hcaps, Hstr. simpl. f_equal.
    eapply (substring_at text (m_start m) (k1 ++ w1 ++ k2 ++ w2 ++ tb ++ w3 ++ k3 ++ w4) tg b).
    + rewrite Hs. by rewrite <- !(assoc_L (++)).
    + done.
    + rewrite He, !length_app. lia.
  - done.
  - done.
  - by eapply occurs_at_length.
  - apply Hocc.
  - intros c Hc. apply Hb'.
    rewrite He in Hc. rewrite <- lookup_drop, Hs in Hc.
    replace (k1 ++ w1 ++ k2 ++ w2 ++ tb ++ w3 ++ k3 ++ w4 ++ tg ++ b)
      with ((k1 ++ w1 ++ k2 ++ w2 ++ tb ++ w3 ++ k3 ++ w4 ++ tg) ++ b) in Hc
      by (by rewrite <- !(assoc_L (++))).
    rewrite lookup_app_r in Hc by lia. rewrite Nat.sub_diag in Hc.
    by destruct b.
Qed.


Lemma occurrences_count text from l :
  occurrences text from l → l ≠ [] → (from + 24 * length l ≤ length text)%nat.
Proof.
  induction 1 as [|from i j tb tg rest Hi Hocc _ Hrest IH]; [done|]. intros _.
  pose proof (occurs_at_length _ _ _ _ _ Hocc). destruct Hocc as [Hij _].
  destruct rest as [|o rest]; [simpl; lia|].
  specialize (IH ltac:(done)). simpl in *. lia.
Qed.

(** X10.  Matches do not overlap and each spans at least 24 characters, so
    a unit has at most one finding per 24 characters of its text. *)
Theorem findings_count_bound (h : store) (l : loc) (u : Unit) :
  h !! l = Some (CUnit u) →
  ∃ fs,
    scan_unit l h = Ok (S (length h)) (h ++ [CList fs; CDict (scan_result u)])
    ∧ (24 * length fs ≤ length (unit_src u))%nat.
Proof.
  intros Hl. exists (findings_of u). split; [by apply scan_unit_run|].
  unfold findings_of. rewrite length_map.
  pose proof (finditer_occurrences (unit_src u)) as Hocc.
  destruct (finditer DESCRIBE_TABLE_RE (unit_src u)) as [|m ms] eqn:E; [simpl; lia|].
  apply occurrences_count in Hocc; [|done]. rewrite length_map in Hocc. lia.
Qed.

(** ** Matching does not depend on the ASCII case of the text *)

Lemma same_lower_cases (f : N → N) x :
  ascii_lower (f x) = ascii_lower x →
  f x = x
  ∨ (((65 ≤ x ≤ 90)%N ∨ (97 ≤ x ≤ 122)%N) ∧ ((65 ≤ f x ≤ 90)%N ∨ (97 ≤ f x ≤ 122)%N)).
Proof.
  intros H.
  destruct (ascii_lower_cases x) as [[Hx ?]|[Hx ?]],
           (ascii_lower_cases (f x)) as [[Hy ?]|[Hy ?]]; rewrite Hx, Hy in H.
  - by left.
  - right. lia.
  - right. lia.
  - left. lia.
Qed.

Lemma letter_classes x :
  (65 ≤ x ≤ 90)%N ∨ (97 ≤ x ≤ 122)%N → is_space x = false ∧ is_word x = true.
Proof.
  intros H.
  assert (Hw : is_ascii_word x = true).
  { unfold is_ascii_word, in_range. destruct H as [[? ?]|[? ?]].
    - replace (65 <=? x)%N with true by (symmetry; by apply N.leb_le).
      replace (x <=? 90)%N with true by (symmetry; by apply N.leb_le).
      by rewrite !orb_true_r.
    - replace (97 <=? x)%N with true by (symmetry; by apply N.leb_le).
      replace (x <=? 122)%N with true by (symmetry; by apply N.leb_le).
      by rewrite !orb_true_r. }
  split; [by apply ascii_word_not_space|].
  unfold is_word. replace (x <? 128)%N with true; [done|].
  symmetry. apply N.ltb_lt. lia.
Qed.

Lemma is_space_same_lower (f : N → N) :
  (∀ x, ascii_lower (f x) = ascii_lower x) → ∀ x, is_space (f x) = is_space x.
Proof.
  intros Hf x. destruct (same_lower_cases f x (Hf x)) as [->|[Hx Hy]]; [done|].
  apply letter_classes in Hx as [-> _], Hy as [-> _]. done.
Qed.

Lemma is_word_same_lower (f : N → N) :
  (∀ x, ascii_lower (f x) = ascii_lower x) → ∀ x, is_word (f x) = is_word x.
Proof.
  intros Hf x. destruct (same_lower_cases f x (Hf x)) as [->|[Hx Hy]]; [done|].
  apply letter_classes in Hx as [_ ->], Hy as [_ ->]. done.
Qed.

Lemma ignorecase_eq_same_lower (f : N → N) :
  (∀ x, ascii_lower (f x) = ascii_lower x) →
  ∀ p x, ignorecase_eq p (f x) = ignorecase_eq p x.
Proof.
  intros Hf p x. unfold ignorecase_eq. rewrite Hf.
  destruct (same_lower_cases f x (Hf x)) as [->|[Hx Hy]]; [done|].
  assert (∀ y c, ((65 ≤ y ≤ 90)%N ∨ (97 ≤ y ≤ 122)%N) → (128 ≤ c)%N → (y =? c)%N = false)
    as Hne by (intros y c ? ?; apply N.eqb_neq; lia).
  rewrite !(Hne x), !(Hne (f x)) by (done || lia). done.
Qed.

Lemma exec_lits_map (f : N → N) l s pos :
  (∀ p x, ignorecase_eq p (f x) = ignorecase_eq p x) →
  exec_lits l (map f s) pos
  = match exec_lits l s pos with
    | Some (s', pos') => Some (map f s', pos')
    | None => None
    end.
Proof.
  intros Hf. revert s pos. induction l as [|p l IH]; intros s pos; [done|].
  destruct s as [|x s]; simpl; [done|].
  rewrite Hf. destruct (ignorecase_eq p x); [apply IH|done].
Qed.

Lemma exec_plus_map (f : N → N) cls s pos caps
    (k k' : list N → nat → list (string * (nat * nat)) → option (nat * list (string * (nat * nat)))) :
  (∀ x, cls (f x) = cls x) →
  (∀ s' p c, k' (map f s') p c = k s' p c) →
  exec_plus cls (map f s) pos caps k' = exec_plus cls s pos caps k.
Proof.
  intros Hcls Hk. revert pos. induction s as [|x s IH]; intros pos; simpl; [done|].
  rewrite Hcls. destruct (cls x); [|done]. by rewrite IH, Hk.
Qed.

Lemma exec_map (f : N → N) r :
  (∀ p x, ignorecase_eq p (f x) = ignorecase_eq p x) →
  class_blind f r →
  ∀ s pos caps
    (k k' : list N → nat → list (string * (nat * nat)) → option (nat * list (string * (nat * nat)))),
    (∀ s' p c, k' (map f s') p c = k s' p c) →
    exec r (map f s) pos caps k' = exec r s pos caps k.
Proof.
  intros Hf. induction r as [l|cls|r1 IH1 r2 IH2|g r IH]; intros Hr s pos caps k k' Hk; simpl.
  - rewrite exec_lits_map by done. destruct (exec_lits l s pos) as [[s' pos']|]; [apply Hk|done].
  - by apply exec_plus_map.
  - destruct Hr as [Hr1 Hr2]. apply IH1; [done|].
    intros s' p c. by apply IH2.
  - apply IH; [done|]. intros s' p c. apply Hk.
Qed.

Lemma finditer_from_map (f : N → N) r text s pos skip :
  (∀ p x, ignorecase_eq p (f x) = ignorecase_eq p x) →
  class_blind f r →
  map span_of (finditer_from r (map f text) (map f s) pos skip)
  = map span_of (finditer_from r text s pos skip).
Proof.
  intros Hf Hr. revert pos skip. induction s as [|x s IH]; intros pos skip.
  - destruct skip; simpl; [|done].
    change [] with (map f []) at 1. unfold match_at. rewrite (exec_map f r Hf Hr [] pos [] _ _) by done.
    by destruct (exec r [] pos [] _) as [[e caps]|].
  - destruct skip as [|skip]; simpl; [|apply IH].
    change (f x :: map f s) with (map f (x :: s)). unfold match_at.
    rewrite (exec_map f r Hf Hr (x :: s) pos []
               (fun _ e caps => Some (e, caps)) (fun _ e caps => Some (e, caps))) by done.
    destruct (exec r (x :: s) pos [] _) as [[e caps]|]; simpl; [|apply IH].
    unfold span_of at 1 3. simpl. f_equal. apply IH.
Qed.

(** X15.  Matching does not depend on the ASCII case of the text: if [f]
    changes at most the case of ASCII letters, the pattern matches in the
    text mapped by [f] at the same places, with the groups at the same
    places, as in the text itself; so the two texts get the same number of
    findings. *)
Theorem matching_ignores_ascii_case (f : char → char) (text : str) :
  (∀ x, ascii_lower (f x) = ascii_lower x) →
  map span_of (finditer DESCRIBE_TABLE_RE (map f text))
  = map span_of (finditer DESCRIBE_TABLE_RE text)
  ∧ length (finditer DESCRIBE_TABLE_RE (map f text))
    = length (finditer DESCRIBE_TABLE_RE text).
Proof.
  intros Hf.
  assert (H : map span_of (finditer DESCRIBE_TABLE_RE (map f text))
              = map span_of (finditer DESCRIBE_TABLE_RE text)).
  { apply finditer_from_map.
    - by apply ignorecase_eq_same_lower.
    - pose proof (is_space_same_lower f Hf). pose proof (is_word_same_lower f Hf).
      simpl. by split_and!. }
  split; [exact H|].
  apply (f_equal length) in H. by rewrite !length_map in H.
Qed.

(** ** More about the results *)

(** X11.  The findings that a unit brings in its [describe_findings] play
    no part: two units that agree on every other field get equal result
    dictionaries, whose [describe_findings] holds the findings of this scan
    alone. *)
Theorem incoming_findings_are_replaced (h h' : store) (l l' : loc) (u u' : Unit) :
  h !! l = Some (CUnit u) → h' !! l' = Some (CUnit u') →
  pgm_name u = pgm_name u' → inc_name u = inc_name u' → type u = type u' →
  name u = name u' → start_line u = start_line u' → end_line u = end_line u' →
  code u = code u' →
  ∃ obj h1 obj' h1' d,
    scan_unit l h = Ok obj h1 ∧ scan_unit l' h' = Ok obj' h1'
    ∧ h1 !! obj = Some (CDict d) ∧ h1' !! obj' = Some (CDict d)
    ∧ assoc "describe_findings" d = Some (VList (findings_of u)).
Proof.
  intros Hl Hl' H1 H2 H3 H4 H5 H6 H7.
  assert (Hfs : findings_of u' = findings_of u).
  { unfold findings_of, finding_of, finding_dict, unit_src.
    by rewrite H1, H2, H3, H4, H5, H6, H7. }
  assert (Hres : scan_result u' = scan_result u).
  { unfold scan_result. rewrite Hfs. unfold model_dump.
    rewrite H1, H2, H3, H4, H5, H6, H7. reflexivity. }
  exists (S (length h)), (h ++ [CList (findings_of u); CDict (scan_result u)]),
    (S (length h')), (h' ++ [CList (findings_of u'); CDict (scan_result u')]),
    (scan_result u).
  split_and!.
  - by apply scan_unit_run.
  - by apply scan_unit_run.
  - apply lookup_last2.
  - rewrite <- Hres. apply lookup_last2.
  - unfold scan_result. apply assoc_dict_set.
Qed.

(** X12.  Units are scanned independently of one another: the results of
    a batch made of two lists of units are the results of the first list
    followed by the results of the second. *)
Theorem batch_of_concatenation (h : store) (ls1 ls2 : list loc) (us1 us2 : list Unit) :
  units_at h ls1 us1 → units_at h ls2 us2 →
  ∃ r1 r2 h1 h2 h3,
    scan_describe_table ls1 h = Ok r1 h1
    ∧ scan_describe_table ls2 h = Ok r2 h2
    ∧ scan_describe_table (ls1 ++ ls2) h = Ok (r1 ++ r2) h3.
Proof.
  intros H1 H2. eexists _, _, _, _, _. split_and!.
  - by apply scan_describe_table_run.
  - by apply scan_describe_table_run.
  - rewrite (scan_describe_table_run h (ls1 ++ ls2) (us1 ++ us2))
      by (by apply units_at_app).
    by rewrite batch_result_app.
Qed.

(** X13.  A batch never returns more results than it was given units, and
    every result it returns is a dictionary whose [describe_findings] is a
    list with at least one finding. *)
Theorem batch_results_have_findings (h : store) (ls : list loc) (us : list Unit) :
  units_at h ls us →
  ∃ r h',
    scan_describe_table ls h = Ok r h'
    ∧ (length r ≤ length ls)%nat
    ∧ Forall (fun v => ∃ d f fs,
          v = VDict d ∧ assoc "describe_findings" d = Some (VList (f :: fs))) r.
Proof.
  intros Hus. exists (batch_result us). eexists. split_and!.
  - by apply scan_describe_table_run.
  - unfold batch_result. rewrite length_map.
    rewrite (Forall2_length _ _ _ Hus). apply List.filter_length_le.
  - unfold batch_result. apply Forall_forall. intros v Hv.
    apply list_elem_of_In, in_map_iff in Hv as (u & <- & Hu).
    apply filter_In in Hu as [_ Hu]. apply has_findings_spec in Hu.
    destruct (findings_of u) as [|f fs] eqn:E; [done|].
    exists (scan_result u), f, fs. split; [done|].
    unfold scan_result. by rewrite assoc_dict_set, E.
Qed.

(** X14.  The texts of a finding agree with one another: the message and
    the suggestion name the statement with its keywords in upper case and
    single spaces, however the text spelled it, and the two identifiers as
    the text has them; and the suggestion quotes, letter for letter, the
    replacement recorded in [meta.replacement_syntax]. *)
Theorem finding_texts_agree (h : store) (l : loc) (u : Unit) :
  h !! l = Some (CUnit u) →
  ∃ fs,
    scan_unit l h = Ok (S (length h)) (h ++ [CList fs; CDict (scan_result u)])
    ∧ Forall2 (fun f m => ∃ fd meta r,
          let phrase := lit "DESCRIBE TABLE " ++ group_text m "table"
                        ++ lit " LINES " ++ group_text m "target" in
          f = VDict fd
          ∧ assoc "meta" fd = Some (VDict meta)
          ∧ assoc "replacement_syntax" meta = Some (VStr r)
          ∧ r = lit "DATA(" ++ group_text m "target" ++ lit ") = LINES( "
                ++ group_text m "table" ++ lit " )."
          ∧ assoc "message" fd
            = Some (VStr (lit "Obsolete '" ++ phrase ++ lit "' found. Use LINES( "
                          ++ group_text m "table"
                          ++ lit " ) instead for S/4HANA compatibility."))
          ∧ assoc "suggestion" fd
            = Some (VStr (lit "Replace obsolete '" ++ phrase
                          ++ lit "' with modern expression '" ++ r
                          ++ lit "' This uses the S/4HANA-compatible LINES() function.")))
        fs (finditer DESCRIBE_TABLE_RE (unit_src u)).
Proof.
  intros Hl. exists (findings_of u). split; [by apply scan_unit_run|].
  unfold findings_of. apply Forall2_map_self. intros m _.
  eexists _, _, _. split; [reflexivity|]. split; [reflexivity|].
  split; [reflexivity|]. split; [reflexivity|]. split.
  - cbv zeta.
    change (assoc "message" (finding_dict u (unit_src u) m (group_text m "table")
                               (group_text m "target")))
      with (Some (VStr (message_of (group_text m "table") (group_text m "target")))).
    do 2 f_equal. unfold message_of. rewrite <- !(assoc_L (++)).
    vm_compute. reflexivity.
  - cbv zeta.
    change (assoc "suggestion" (finding_dict u (unit_src u) m (group_text m "table")
                                  (group_text m "target")))
      with (Some (VStr (make_generic_suggestion (group_text m "table")
                          (group_text m "target")))).
    do 2 f_equal. unfold make_generic_suggestion, replacement_of.
    rewrite <- !(assoc_L (++)). vm_compute. reflexivity.
Qed.

(** X17.  A finding has exactly the thirteen fields of the [Finding] class,
    in the order of the class, and its [meta] is a dictionary; the result
    of a scan has exactly the fields of the [Unit] class. *)
Theorem findings_fit_the_models (h : store) (l : loc) (u : Unit) (x : Finding.t) :
  h !! l = Some (CUnit u) →
  ∃ fs xd,
    scan_unit l h = Ok (S (length h)) (h ++ [CList fs; CDict (scan_result u)])
    ∧ dump_finding x = VDict xd
    ∧ map fst (scan_result u) = map fst (model_dump u)
    ∧ Forall (fun f => ∃ fd meta,
          f = VDict fd ∧ map fst fd = map fst xd
          ∧ assoc "meta" fd = Some (VDict meta)) fs.
Proof.
  intros Hl. exists (findings_of u). eexists. split_and!.
  - by apply scan_unit_run.
  - reflexivity.
  - reflexivity.
  - unfold findings_of. apply Forall_forall. intros f Hf.
    apply list_elem_of_In, in_map_iff in Hf as (m & <- & _).
    eexists _, _. by split_and!.
Qed.

(** ** The matched statement on its own *)

Lemma finditer_from_skip_all text s pos skip :
  (length s ≤ skip)%nat → finditer_from DESCRIBE_TABLE_RE text s pos skip = [].
Proof.
  revert pos skip. induction s as [|x s IH]; intros pos skip H.
  - destruct skip; reflexivity.
  - destruct skip as [|skip]; simpl in *; [lia|]. apply IH. lia.
Qed.

Lemma statement_groups s tb tg :
  statement s tb tg →
  ∃ ts bs be,
    match_at DESCRIBE_TABLE_RE s 0
    = Some (length s, [("target", (ts, length s)); ("table", (bs, be))])
    ∧ substring s bs be = tb ∧ substring s ts (length s) = tg.
Proof.
  intros (k1 & w1 & k2 & w2 & w3 & k3 & w4 & Hs & H).
  assert (Hl : laid_out s k1 w1 k2 w2 tb w3 k3 w4 tg []).
  { split; [|exact H]. rewrite Hs. by rewrite !(right_id_L [] (++)). }
  destruct (describe_complete _ 0 _ _ _ _ _ _ _ _ _ _ Hl) as (run & b' & Hb & _ & _ & Hm).
  destruct run; [|done]. simpl in Hm. rewrite (right_id_L [] (++)) in Hm.
  rewrite <- Hs in Hm.
  eexists _, _, _. split; [exact Hm|]. split.
  - eapply (substring_at s 0 (k1 ++ w1 ++ k2 ++ w2) tb).
    + simpl. rewrite Hs. by rewrite <- !(assoc_L (++)).
    + done.
    + rewrite !length_app. lia.
  - eapply (substring_at s 0 (k1 ++ w1 ++ k2 ++ w2 ++ tb ++ w3 ++ k3 ++ w4) tg []).
    + simpl. rewrite Hs. by rewrite (right_id_L [] (++)), <- !(assoc_L (++)).
    + done.
    + rewrite Hs, !length_app. lia.
Qed.

(** X16.  The matched text is a statement by itself: scanning the text of a
    match alone gives exactly one match, which covers all of it and has the
    same table and target. *)
Theorem matched_text_rescans (text : str) (m : Match) :
  m ∈ finditer DESCRIBE_TABLE_RE text →
  ∃ m',
    finditer DESCRIBE_TABLE_RE (group0 m) = [m']
    ∧ m_start m' = 0%nat ∧ m_end m' = length (group0 m)
    ∧ group0 m' = group0 m
    ∧ group m' "table" = group m "table"
    ∧ group m' "target" = group m "target".
Proof.
  intros Hm. pose proof (finditer_group_text _ _ Hm) as [Htb Htg].
  apply finditer_groups in Hm as (ts & bs & be & Hstr & Hg & _ & Hst).
  assert (Hgt : group m "table" = Some (substring text bs be)
                ∧ group m "target" = Some (substring text ts (m_end m))).
  { unfold group. by rewrite Hg, Hstr. }
  destruct Hgt as [Hgtb Hgtg].
  assert (H0 : group0 m = substring text (m_start m) (m_end m))
    by (unfold group0; by rewrite Hstr).
  rewrite <- H0 in Hst.
  destruct (statement_groups _ _ _ Hst) as (ts' & bs' & be' & Hm' & Hb' & Ht').
  assert (Hne : group0 m ≠ []).
  { destruct Hst as (k1 & ? & ? & ? & ? & ? & ? & -> & Hk1 & _).
    apply keyword_length in Hk1. destruct k1; [done|done]. }
  destruct (group0 m) as [|x s] eqn:E; [done|].
  exists {| m_string := x :: s; m_start := 0; m_end := length (x :: s);
            m_groups := [("target", (ts', length (x :: s))); ("table", (bs', be'))] |}.
  split_and!.
  - unfold finditer. cbn [finditer_from]. rewrite Hm'. f_equal.
    apply finditer_from_skip_all. simpl. lia.
  - done.
  - done.
  - unfold group0, substring. simpl. f_equal. apply take_ge. lia.
  - unfold group at 1. simpl. by rewrite Hb', Hgtb.
  - unfold group at 1. simpl. rewrite Hgtg. f_equal. exact Ht'.
Qed.

(** X18.  The snippet of a finding shows the matched statement in its
    context: it is the escaped text of up to 60 characters before the
    match, then the escaped [original_statement], then the escaped text of
    up to 60 characters after the match. *)
Theorem finding_snippet_frames_statement (h : store) (l : loc) (u : Unit) :
  h !! l = Some (CUnit u) →
  ∃ fs,
    scan_unit l h = Ok (S (length h)) (h ++ [CList fs; CDict (scan_result u)])
    ∧ Forall2 (fun f m => ∃ fd meta stmt,
          let src := unit_src u in
          let before := substring src (m_start m - 60) (m_start m) in
          let after := substring src (m_end m) (Nat.min (length src) (m_end m + 60)) in
          f = VDict fd
          ∧ assoc "meta" fd = Some (VDict meta)
          ∧ assoc "original_statement" meta = Some (VStr stmt)
          ∧ stmt = substring src (m_start m) (m_end m)
          ∧ assoc "snippet" fd
            = Some (VStr (escape_line_breaks before ++ escape_line_breaks stmt
                          ++ escape_line_breaks after))
          ∧ (length before ≤ 60)%nat ∧ (length after ≤ 60)%nat)
        fs (finditer DESCRIBE_TABLE_RE (unit_src u)).
Proof.
  intros Hl. exists (findings_of u). split; [by apply scan_unit_run|].
  unfold findings_of. apply Forall2_map_self. intros m Hm.
  apply finditer_groups in Hm as (ts & bs & be & Hstr & _ & Hocc & Hst).
  assert (H0 : group0 m = substring (unit_src u) (m_start m) (m_end m))
    by (unfold group0; by rewrite Hstr).
  assert (Hstrip : str_strip is_space (group0 m) = group0 m).
  { rewrite H0. by eapply statement_strip. }
  pose proof (occurs_at_nonempty _ _ _ _ _ (conj Hocc Hst)) as Hlt.
  pose proof (snippet_at_three_parts (unit_src u) (Z.of_nat (m_start m))
                (Z.of_nat (m_end m)) ltac:(lia) ltac:(lia)) as Hsn.
  assert (Hb : (length (substring (unit_src u) (m_start m - 60) (m_start m)) ≤ 60)%nat)
    by (rewrite substring_length by lia; lia).
  assert (Ha : (length (substring (unit_src u) (m_end m)
                          (Nat.min (length (unit_src u)) (m_end m + 60))) ≤ 60)%nat)
    by (rewrite substring_length by lia; lia).
  eexists _, _, _. cbv zeta. split; [reflexivity|]. split; [reflexivity|].
  split; [reflexivity|]. split; [by rewrite Hstrip|].
  split; [|by split].
  change (assoc "snippet" (finding_dict u (unit_src u) m (group_text m "table")
                             (group_text m "target")))
    with (Some (VStr (snippet_at (unit_src u) (Z.of_nat (m_start m)) (Z.of_nat (m_end m))))).
  by rewrite Hsn, !Nat2Z.id, Hstrip, H0.
Qed.

End Scanner.

(** ** The scanner at work on a concrete table *)

Lemma latin1_alnum_not_space c : is_space c = true → latin1_alnum c = false.
Proof.
  intros H. destruct (latin1_alnum c) eqn:E; [exfalso|done].
  unfold latin1_alnum, is_space in *. bool_prop; lia.
Qed.


Lemma batch_keeps_units_with_findings_witness :
  units_at sample_store [0; 1; 2]%nat
    [sample_unit "DESCRIBE TABLE LT_TAB LINES LV_LINES.";
     sample_unit "WRITE 'hello'.";
     sample_unit "describe table itab lines n."]
  ∧ ∃ h',
      scan_describe_table latin1_alnum [0; 1; 2]%nat sample_store
      = Ok [VDict (scan_result latin1_alnum (sample_unit "DESCRIBE TABLE LT_TAB LINES LV_LINES."));
            VDict (scan_result latin1_alnum (sample_unit "describe table itab lines n."))] h'.
Proof.
  assert (H : units_at sample_store [0; 1; 2]%nat
                [sample_unit "DESCRIBE TABLE LT_TAB LINES LV_LINES.";
                 sample_unit "WRITE 'hello'.";
                 sample_unit "describe table itab lines n."]).
  { repeat constructor. }
  split; [exact H|].
  exact (proj2 (proj2 (proj2 (batch_keeps_units_with_findings latin1_alnum)))
           sample_store [0; 1; 2]%nat H).
Defined.

Lemma scenario_a_one_finding_witness :
  sample_store !! 0%nat = Some (CUnit (sample_unit "DESCRIBE TABLE LT_TAB LINES LV_LINES."))
  ∧ code (sample_unit "DESCRIBE TABLE LT_TAB LINES LV_LINES.")
    = Some (lit "DESCRIBE TABLE LT_TAB LINES LV_LINES.")
  ∧ ∃ fd meta,
      assoc "describe_findings"
        (scan_result latin1_alnum (sample_unit "DESCRIBE TABLE LT_TAB LINES LV_LINES."))
      = Some (VList [VDict fd])
      ∧ assoc "meta" fd = Some (VDict meta)
      ∧ assoc "replacement_syntax" meta
        = Some (VStr (lit "DATA(LV_LINES) = LINES( LT_TAB )."))
      ∧ assoc "message" fd
        = Some (VStr (lit "Obsolete 'DESCRIBE TABLE LT_TAB LINES LV_LINES' found. Use LINES( LT_TAB ) instead for S/4HANA compatibility.")).
Proof.
  split; [reflexivity|]. split; [reflexivity|].
  destruct (scenario_a_one_finding latin1_alnum sample_store 0%nat
              (sample_unit "DESCRIBE TABLE LT_TAB LINES LV_LINES.") eq_refl eq_refl)
    as (fd & meta & _ & Hfs & Hmeta & Hrep & Hmsg & Hlit & _).
  exists fd, meta. split; [exact Hfs|]. split; [exact Hmeta|]. split; [exact Hrep|].
  rewrite <- Hlit. exact Hmsg.
Defined.

Lemma line_of_offset_counts_line_feeds_witness :
  0 <= 3 <= Z.of_nat (length (lit ("ab" +:+ NL +:+ "cd")))
  ∧ line_of_offset (lit ("ab" +:+ NL +:+ "cd")) 3
    = 1 + newlines_before (lit ("ab" +:+ NL +:+ "cd")) (Z.to_nat 3).
Proof.
  assert (H : 0 <= 3 <= Z.of_nat (length (lit ("ab" +:+ NL +:+ "cd")))).
  { vm_compute. split; discriminate. }
  split; [exact H|].
  exact (proj1 (line_of_offset_counts_line_feeds latin1_alnum)
           (lit ("ab" +:+ NL +:+ "cd")) 3 H).
Defined.

Lemma snippet_at_is_escaped_window_witness :
  0 <= 3 <= 8
  ∧ 8 <= Z.of_nat (length (lit ("ab" +:+ NL +:+ "DESCRIBE")))
  ∧ snippet_at (lit ("ab" +:+ NL +:+ "DESCRIBE")) 3 8 = lit "ab\nDESCRIBE".
Proof.
  assert (H1 : 0 <= 3 <= 8) by (split; discriminate).
  assert (H2 : 8 <= Z.of_nat (length (lit ("ab" +:+ NL +:+ "DESCRIBE"))))
    by (vm_compute; discriminate).
  split; [exact H1|]. split; [exact H2|].
  rewrite (proj1 (snippet_at_is_escaped_window (lit ("ab" +:+ NL +:+ "DESCRIBE")) 3 8 H1 H2)).
  vm_compute. reflexivity.
Defined.

Lemma empty_code_has_no_findings_witness :
  [CUnit null_code_unit] !! 0%nat = Some (CUnit null_code_unit)
  ∧ (code null_code_unit = None ∨ code null_code_unit = Some [])
  ∧ scan_unit latin1_alnum 0 [CUnit null_code_unit]
    = Ok 2%nat [CUnit null_code_unit; CList []; CDict (scan_result latin1_alnum null_code_unit)].
Proof.
  split; [reflexivity|]. split; [left; reflexivity|].
  exact (proj1 (proj2 (empty_code_has_no_findings latin1_alnum [CUnit null_code_unit]
                         0%nat null_code_unit eq_refl (or_introl eq_refl)))).
Defined.

Lemma scan_unit_copies_the_unit_witness :
  sample_store !! 2%nat = Some (CUnit (sample_unit "describe table itab lines n."))
  ∧ ∃ obj h',
      scan_unit latin1_alnum 2 sample_store = Ok obj h'
      ∧ h' !! 2%nat = Some (CUnit (sample_unit "describe table itab lines n.")).
Proof.
  split; [reflexivity|].
  destruct (scan_unit_copies_the_unit latin1_alnum sample_store 2%nat
              (sample_unit "describe table itab lines n.") eq_refl)
    as (obj & h' & d & fs & Hrun & _ & Hunit & _).
  exists obj, h'. split; [exact Hrun|exact Hunit].
Defined.

Lemma scanning_is_repeatable_witness :
  sample_store !! 0%nat = Some (CUnit (sample_unit "DESCRIBE TABLE LT_TAB LINES LV_LINES."))
  ∧ ∃ obj1 h1 obj2 h2 d,
      scan_unit latin1_alnum 0 sample_store = Ok obj1 h1
      ∧ scan_unit latin1_alnum 0 h1 = Ok obj2 h2
      ∧ h1 !! obj1 = Some (CDict d) ∧ h2 !! obj2 = Some (CDict d).
Proof.
  split; [reflexivity|].
  destruct (proj1 (scanning_is_repeatable latin1_alnum) sample_store 0%nat
              (sample_unit "DESCRIBE TABLE LT_TAB LINES LV_LINES.") eq_refl)
    as (obj1 & h1 & obj2 & h2 & d & H1 & H2 & H3 & H4 & _).
  exists obj1, h1, obj2, h2, d. repeat split; assumption.
Defined.

Lemma describe_is_not_anchored_witness :
  [CUnit (sample_unit "UNDESCRIBE TABLE T LINES N")] !! 0%nat
  = Some (CUnit (sample_unit "UNDESCRIBE TABLE T LINES N"))
  ∧ ∃ f,
      scan_unit latin1_alnum 0 [CUnit (sample_unit "UNDESCRIBE TABLE T LINES N")]
      = Ok 2%nat [CUnit (sample_unit "UNDESCRIBE TABLE T LINES N"); CList [f];
                  CDict (scan_result latin1_alnum (sample_unit "UNDESCRIBE TABLE T LINES N"))].
Proof.
  split; [reflexivity|]. eexists.
  exact (proj2 (proj2 (proj2 (proj2 (describe_is_not_anchored latin1_alnum))))
           [CUnit (sample_unit "UNDESCRIBE TABLE T LINES N")] 0%nat eq_refl).
Defined.


Lemma ascii_lower_idemp x : ascii_lower (ascii_lower x) = ascii_lower x.
Proof.
  destruct (ascii_lower_cases x) as [[Hx ?]|[Hx ?]]; rewrite Hx.
  - exact Hx.
  - destruct (ascii_lower_cases (x + 32)) as [[Hy ?]|[Hy ?]]; [exact Hy|lia].
Qed.

Lemma line_of_offset_any_offset_witness :
  Z.of_nat (length (lit ("ab" +:+ NL +:+ "cd"))) <= 9
  ∧ line_of_offset (lit ("ab" +:+ NL +:+ "cd")) 9
    = 1 + count_char LF (lit ("ab" +:+ NL +:+ "cd"))
  ∧ line_of_offset (lit ("ab" +:+ NL +:+ "cd")) (-1) = 2.
Proof.
  assert (H : Z.of_nat (length (lit ("ab" +:+ NL +:+ "cd"))) <= 9)
    by (vm_compute; discriminate).
  split; [exact H|]. split.
  - exact (proj1 (proj2 (line_of_offset_any_offset (lit ("ab" +:+ NL +:+ "cd")) 9)) H).
  - rewrite (proj2 (proj2 (line_of_offset_any_offset (lit ("ab" +:+ NL +:+ "cd")) (-1))))
      by reflexivity.
    vm_compute. reflexivity.
Defined.

Lemma line_of_offset_monotone_witness :
  0 <= 1 <= 4
  ∧ line_of_offset (lit ("ab" +:+ NL +:+ "cd")) 1
    <= line_of_offset (lit ("ab" +:+ NL +:+ "cd")) 4.
Proof.
  assert (H : 0 <= 1 <= 4) by (split; discriminate).
  split; [exact H|].
  exact (line_of_offset_monotone (lit ("ab" +:+ NL +:+ "cd")) 1 4 H).
Defined.

Lemma finding_lines_ascend_witness :
  sample_store !! 0%nat = Some (CUnit (sample_unit "DESCRIBE TABLE LT_TAB LINES LV_LINES."))
  ∧ ∃ fs lines,
      scan_unit latin1_alnum 0 sample_store
      = Ok 4%nat (sample_store ++
                  [CList fs;
                   CDict (scan_result latin1_alnum
                            (sample_unit "DESCRIBE TABLE LT_TAB LINES LV_LINES."))])
      ∧ StronglySorted Z.le lines.
Proof.
  split; [reflexivity|].
  destruct (finding_lines_ascend latin1_alnum sample_store 0%nat
              (sample_unit "DESCRIBE TABLE LT_TAB LINES LV_LINES.") eq_refl)
    as (fs & lines & Hrun & _ & Hsorted & _).
  exists fs, lines. split; [exact Hrun|exact Hsorted].
Defined.

Lemma line_of_offset_app_witness :
  0 <= 2 <= Z.of_nat (length (lit ("c" +:+ NL +:+ "d")))
  ∧ line_of_offset (lit ("a" +:+ NL +:+ "b") ++ lit ("c" +:+ NL +:+ "d"))
      (Z.of_nat (length (lit ("a" +:+ NL +:+ "b"))) + 2)
    = count_char LF (lit ("a" +:+ NL +:+ "b")) + line_of_offset (lit ("c" +:+ NL +:+ "d")) 2.
Proof.
  assert (H : 0 <= 2 <= Z.of_nat (length (lit ("c" +:+ NL +:+ "d"))))
    by (vm_compute; split; discriminate).
  split; [exact H|].
  exact (line_of_offset_app (lit ("a" +:+ NL +:+ "b")) (lit ("c" +:+ NL +:+ "d")) 2 H).
Defined.

Lemma snippet_at_frames_the_span_witness :
  0 <= 3 <= 11
  ∧ 11 <= Z.of_nat (length (lit ("ab" +:+ NL +:+ "DESCRIBE" +:+ NL +:+ "cd")))
  ∧ snippet_at (lit ("ab" +:+ NL +:+ "DESCRIBE" +:+ NL +:+ "cd")) 3 11
    = lit "ab\n" ++ lit "DESCRIBE" ++ lit "\ncd".
Proof.
  assert (H1 : 0 <= 3 <= 11) by (split; discriminate).
  assert (H2 : 11 <= Z.of_nat (length (lit ("ab" +:+ NL +:+ "DESCRIBE" +:+ NL +:+ "cd"))))
    by (vm_compute; discriminate).
  split; [exact H1|]. split; [exact H2|].
  rewrite (proj1 (snippet_at_frames_the_span
                    (lit ("ab" +:+ NL +:+ "DESCRIBE" +:+ NL +:+ "cd")) 3 11 H1 H2)).
  vm_compute. reflexivity.
Defined.

Lemma snippet_at_length_bounds_witness :
  0 <= 3 <= 11
  ∧ 11 <= Z.of_nat (length (lit ("ab" +:+ NL +:+ "DESCRIBE" +:+ NL +:+ "cd")))
  ∧ 11 - 3 <= Z.of_nat (length (snippet_at
                                  (lit ("ab" +:+ NL +:+ "DESCRIBE" +:+ NL +:+ "cd")) 3 11))
           <= 2 * (11 - 3 + 120).
Proof.
  assert (H1 : 0 <= 3 <= 11) by (split; discriminate).
  assert (H2 : 11 <= Z.of_nat (length (lit ("ab" +:+ NL +:+ "DESCRIBE" +:+ NL +:+ "cd"))))
    by (vm_compute; discriminate).
  split; [exact H1|]. split; [exact H2|].
  exact (snippet_at_length_bounds
           (lit ("ab" +:+ NL +:+ "DESCRIBE" +:+ NL +:+ "cd")) 3 11 H1 H2).
Defined.

Lemma snippet_at_hides_line_feeds_witness :
  0 <= 0 <= 60 ∧ 0 <= 1
  ∧ (length (lit "a") + length (lit "b") + 2 ≤ 60)%nat
  ∧ snippet_at (lit "a" ++ [LF] ++ lit "b") 0 1
    = snippet_at (lit "a" ++ [BACKSLASH; 110%N] ++ lit "b") 0 1.
Proof.
  assert (H1 : 0 <= 0 <= 60) by (split; discriminate).
  assert (H2 : 0 <= 1) by discriminate.
  assert (H3 : (length (lit "a") + length (lit "b") + 2 ≤ 60)%nat) by (vm_compute; lia).
  split; [exact H1|]. split; [exact H2|]. split; [exact H3|].
  exact (proj1 (proj2 (snippet_at_hides_line_feeds (lit "a") (lit "b") 0 1 H1 H2 H3))).
Defined.

Lemma match_takes_whole_identifiers_witness :
  (∀ c, is_space c = true → latin1_alnum c = false)
  ∧ ∃ m,
      m ∈ finditer (DESCRIBE_TABLE_RE latin1_alnum) (lit "DESCRIBE TABLE LT_TAB LINES LV_LINES.")
      ∧ group m "target" = Some (lit "LV_LINES")
      ∧ ∀ c, lit "DESCRIBE TABLE LT_TAB LINES LV_LINES." !! m_end m = Some c →
             is_word latin1_alnum c = false.
Proof.
  split; [exact latin1_alnum_not_space|].
  set (m := {| m_string := lit "DESCRIBE TABLE LT_TAB LINES LV_LINES.";
               m_start := 0; m_end := 36;
               m_groups := [("target", (28, 36)%nat); ("table", (15, 21)%nat)] |}).
  assert (Hm : m ∈ finditer (DESCRIBE_TABLE_RE latin1_alnum)
                     (lit "DESCRIBE TABLE LT_TAB LINES LV_LINES.")).
  { replace (finditer (DESCRIBE_TABLE_RE latin1_alnum)
               (lit "DESCRIBE TABLE LT_TAB LINES LV_LINES."))
      with [m] by (vm_compute; reflexivity).
    apply list_elem_of_here. }
  exists m. split; [exact Hm|]. split; [vm_compute; reflexivity|].
  destruct (match_takes_whole_identifiers latin1_alnum latin1_alnum_not_space _ m Hm)
    as (tb & tg & _ & _ & _ & _ & _ & Hnext).
  exact Hnext.
Defined.


Lemma findings_count_bound_witness :
  (∀ c, is_space c = true → latin1_alnum c = false)
  ∧ sample_store !! 2%nat = Some (CUnit (sample_unit "describe table itab lines n."))
  ∧ ∃ fs,
      scan_unit latin1_alnum 2 sample_store
      = Ok 4%nat (sample_store ++
                  [CList fs;
                   CDict (scan_result latin1_alnum (sample_unit "describe table itab lines n."))])
      ∧ (24 * length fs ≤ 28)%nat.
Proof.
  split; [exact latin1_alnum_not_space|]. split; [reflexivity|].
  destruct (findings_count_bound latin1_alnum latin1_alnum_not_space sample_store 2%nat
              (sample_unit "describe table itab lines n.") eq_refl) as (fs & Hrun & Hlen).
  exists fs. split; [exact Hrun|exact Hlen].
Defined.

Lemma incoming_findings_are_replaced_witness :
  sample_store !! 0%nat = Some (CUnit (sample_unit "DESCRIBE TABLE LT_TAB LINES LV_LINES."))
  ∧ [CUnit rescanned_unit] !! 0%nat = Some (CUnit rescanned_unit)
  ∧ ∃ obj h1 obj' h1' d,
      scan_unit latin1_alnum 0 sample_store = Ok obj h1
      ∧ scan_unit latin1_alnum 0 [CUnit rescanned_unit] = Ok obj' h1'
      ∧ h1 !! obj = Some (CDict d) ∧ h1' !! obj' = Some (CDict d).
Proof.
  split; [reflexivity|]. split; [reflexivity|].
  destruct (incoming_findings_are_replaced latin1_alnum sample_store [CUnit rescanned_unit]
              0%nat 0%nat (sample_unit "DESCRIBE TABLE LT_TAB LINES LV_LINES.")
              rescanned_unit eq_refl eq_refl eq_refl eq_refl eq_refl eq_refl eq_refl
              eq_refl eq_refl)
    as (obj & h1 & obj' & h1' & d & H1 & H2 & H3 & H4 & _).
  exists obj, h1, obj', h1', d. repeat split; assumption.
Defined.

Lemma batch_of_concatenation_witness :
  units_at sample_store [0]%nat [sample_unit "DESCRIBE TABLE LT_TAB LINES LV_LINES."]
  ∧ units_at sample_store [1; 2]%nat
      [sample_unit "WRITE 'hello'."; sample_unit "describe table itab lines n."]
  ∧ ∃ r1 r2 h1 h2 h3,
      scan_describe_table latin1_alnum [0]%nat sample_store = Ok r1 h1
      ∧ scan_describe_table latin1_alnum [1; 2]%nat sample_store = Ok r2 h2
      ∧ scan_describe_table latin1_alnum ([0] ++ [1; 2])%nat sample_store = Ok (r1 ++ r2) h3.
Proof.
  assert (H1 : units_at sample_store [0]%nat
                 [sample_unit "DESCRIBE TABLE LT_TAB LINES LV_LINES."])
    by repeat constructor.
  assert (H2 : units_at sample_store [1; 2]%nat
                 [sample_unit "WRITE 'hello'."; sample_unit "describe table itab lines n."])
    by repeat constructor.
  split; [exact H1|]. split; [exact H2|].
  exact (batch_of_concatenation latin1_alnum sample_store _ _ _ _ H1 H2).
Defined.

Lemma batch_results_have_findings_witness :
  units_at sample_store [0; 1; 2]%nat
    [sample_unit "DESCRIBE TABLE LT_TAB LINES LV_LINES.";
     sample_unit "WRITE 'hello'.";
     sample_unit "describe table itab lines n."]
  ∧ ∃ r h',
      scan_describe_table latin1_alnum [0; 1; 2]%nat sample_store = Ok r h'
      ∧ (length r ≤ 3)%nat.
Proof.
  assert (H : units_at sample_store [0; 1; 2]%nat
                [sample_unit "DESCRIBE TABLE LT_TAB LINES LV_LINES.";
                 sample_unit "WRITE 'hello'.";
                 sample_unit "describe table itab lines n."])
    by repeat constructor.
  split; [exact H|].
  destruct (batch_results_have_findings latin1_alnum sample_store _ _ H)
    as (r & h' & Hrun & Hlen & _).
  exists r, h'. split; [exact Hrun|exact Hlen].
Defined.

Lemma finding_texts_agree_witness :
  sample_store !! 2%nat = Some (CUnit (sample_unit "describe table itab lines n."))
  ∧ ∃ fs,
      scan_unit latin1_alnum 2 sample_store
      = Ok 4%nat (sample_store ++
                  [CList fs;
                   CDict (scan_result latin1_alnum (sample_unit "describe table itab lines n."))]).
Proof.
  split; [reflexivity|].
  destruct (finding_texts_agree latin1_alnum sample_store 2%nat
              (sample_unit "describe table itab lines n.") eq_refl) as (fs & Hrun & _).
  exists fs. exact Hrun.
Defined.

Lemma matching_ignores_ascii_case_witness :
  (∀ x, ascii_lower (ascii_lower x) = ascii_lower x)
  ∧ map span_of (finditer (DESCRIBE_TABLE_RE latin1_alnum)
                   (map ascii_lower (lit "DESCRIBE TABLE LT_TAB LINES LV_LINES.")))
    = [(0, 36, [("target", (28, 36)); ("table", (15, 21))])]%nat.
Proof.
  split; [exact ascii_lower_idemp|].
  rewrite (proj1 (matching_ignores_ascii_case latin1_alnum ascii_lower
                    (lit "DESCRIBE TABLE LT_TAB LINES LV_LINES.") ascii_lower_idemp)).
  vm_compute. reflexivity.
Defined.

Lemma matched_text_rescans_witness :
  (∀ c, is_space c = true → latin1_alnum c = false)
  ∧ ∃ m m',
      m ∈ finditer (DESCRIBE_TABLE_RE latin1_alnum) (lit "UNDESCRIBE TABLE T LINES N")
      ∧ finditer (DESCRIBE_TABLE_RE latin1_alnum) (group0 m) = [m']
      ∧ m_start m' = 0%nat.
Proof.
  split; [exact latin1_alnum_not_space|].
  set (m := {| m_string := lit "UNDESCRIBE TABLE T LINES N"; m_start := 2; m_end := 26;
               m_groups := [("target", (25, 26)%nat); ("table", (17, 18)%nat)] |}).
  assert (Hm : m ∈ finditer (DESCRIBE_TABLE_RE latin1_alnum) (lit "UNDESCRIBE TABLE T LINES N")).
  { replace (finditer (DESCRIBE_TABLE_RE latin1_alnum) (lit "UNDESCRIBE TABLE T LINES N"))
      with [m] by (vm_compute; reflexivity).
    apply list_elem_of_here. }
  destruct (matched_text_rescans latin1_alnum latin1_alnum_not_space _ m Hm)
    as (m' & Hre & H0 & _).
  exists m, m'. split; [exact Hm|]. split; [exact Hre|exact H0].
Defined.

Lemma findings_fit_the_models_witness :
  [CUnit rescanned_unit] !! 0%nat = Some (CUnit rescanned_unit)
  ∧ ∃ fs,
      scan_unit latin1_alnum 0 [CUnit rescanned_unit]
      = Ok 2%nat [CUnit rescanned_unit; CList fs;
                  CDict (scan_result latin1_alnum rescanned_unit)].
Proof.
  split; [reflexivity|].
  destruct (findings_fit_the_models latin1_alnum [CUnit rescanned_unit] 0%nat rescanned_unit
              {| Finding.pgm_name := None; Finding.inc_name := None; Finding.type := None;
                 Finding.name := None; Finding.start_line := None; Finding.end_line := None;
                 Finding.issue_type := None; Finding.severity := None; Finding.line := None;
                 Finding.message := None; Finding.suggestion := None;
                 Finding.snippet := None; Finding.meta := None |} eq_refl)
    as (fs & xd & Hrun & _).
  exists fs. exact Hrun.
Defined.

Lemma finding_snippet_frames_statement_witness :
  (∀ c, is_space c = true → latin1_alnum c = false)
  ∧ sample_store !! 0%nat = Some (CUnit (sample_unit "DESCRIBE TABLE LT_TAB LINES LV_LINES."))
  ∧ ∃ fs,
      scan_unit latin1_alnum 0 sample_store
      = Ok 4%nat (sample_store ++
                  [CList fs;
                   CDict (scan_result latin1_alnum
                            (sample_unit "DESCRIBE TABLE LT_TAB LINES LV_LINES."))]).
Proof.
  split; [exact latin1_alnum_not_space|]. split; [reflexivity|].
  destruct (finding_snippet_frames_statement latin1_alnum latin1_alnum_not_space
              sample_store 0%nat (sample_unit "DESCRIBE TABLE LT_TAB LINES LV_LINES.") eq_refl)
    as (fs & Hrun & _).
  exists fs. exact Hrun.
Defined.

(** C5, as first stated, fails: a carriage return is a line-break character
    and [snippet_at] keeps it.  In the text [a], CR, LF, [b], with the span
    from 0 to 1, the line feed is escaped and the carriage return stays. *)
Lemma snippet_at_keeps_carriage_return :
  0 <= 0 <= 1
  ∧ 1 <= Z.of_nat (length [97; CR; LF; 98]%N)
  ∧ snippet_at [97; CR; LF; 98]%N 0 1 = [97; CR; BACKSLASH; 110; 98]%N
  ∧ is_line_break CR = true
  ∧ CR ∈ snippet_at [97; CR; LF; 98]%N 0 1
  ∧ ¬ Forall (fun c => is_line_break c = false) (snippet_at [97; CR; LF; 98]%N 0 1).
Proof.
  assert (H : snippet_at [97; CR; LF; 98]%N 0 1 = [97; CR; BACKSLASH; 110; 98]%N)
    by (vm_compute; reflexivity).
  split_and!.
  - lia.
  - lia.
  - vm_compute. discriminate.
  - exact H.
  - reflexivity.
  - rewrite H. apply list_elem_of_further, list_elem_of_here.
  - rewrite H. intros HF. apply Forall_cons in HF as [_ HF].
    apply Forall_cons in HF as [HF _]. vm_compute in HF. discriminate.
Qed.
